(** * ACF period finding (astrobase: varbase/autocorr.py, periodbase/macf.py)

    A shallow embedding of the autocorrelation period finder and the
    properties of it that the specification states.

    Numbers.  numpy's float64 values are IEEE 754 binary64 numbers:
    [npfloat] is the Standard Library's [spec_float] at precision 53 and
    exponent bound 1024, with its operations, which round to nearest (ties
    to even), overflow to an infinity and underflow through the subnormal
    numbers; a nan carries no payload.  numpy does not fix the order in
    which [np.sum] and [np.correlate] add their terms; the model adds them
    from left to right, and no statement below depends on that order or
    on the sign of a sum that is zero.  Integers (lags, indices, window
    sizes) are [Z]; the wrap-around of int64 is not modelled.  Division
    is that of Python 3: [/] on two ints gives a float.

    Errors.  A Python exception is a value of [exn]; code that may raise
    returns [result].

    State.  [macf_period_find] updates the dict it receives as
    [smoothfunckwargs] in place and writes log lines, so it is a function
    on a [world]: a store of dict objects addressed by reference, and the
    lines macf.py's own [LOGWARNING] has written so far. *)

From Stdlib Require Import ZArith Lia SpecFloat.
From stdpp Require Import base option list sorting gmap strings.

Local Open Scope Z_scope.

(** ** numpy's float64 *)

Definition prec : Z := 53.
Definition emax : Z := 1024.

Definition npfloat : Type := spec_float.

(** The float64 nearest to [m * 2^e]. *)
Definition float_of (m e : Z) : npfloat := binary_normalize prec emax m e false.

(** An int64 converted to float64. *)
Definition of_int (z : Z) : npfloat := float_of z 0.

(** The literals [0.0], [1.0], [2.0] and [1.483], and [np.nan]. *)
Definition fzero : npfloat := S754_zero false.
Definition fone : npfloat := S754_finite false 4503599627370496 (-52).
Definition ftwo : npfloat := S754_finite false 4503599627370496 (-51).
Definition f1_483 : npfloat := S754_finite false 6678838247390446 (-52).
Definition nan : npfloat := S754_nan.

Definition isfinite (x : npfloat) : bool :=
  match x with
  | S754_zero _ | S754_finite _ _ _ => true
  | _ => false
  end.

Definition isnan (x : npfloat) : bool :=
  match x with S754_nan => true | _ => false end.

Definition fneg : npfloat -> npfloat := SFopp.
Definition fabs : npfloat -> npfloat := SFabs.
Definition fadd : npfloat -> npfloat -> npfloat := SFadd prec emax.
Definition fsub : npfloat -> npfloat -> npfloat := SFsub prec emax.
Definition fmul : npfloat -> npfloat -> npfloat := SFmul prec emax.
Definition fdiv : npfloat -> npfloat -> npfloat := SFdiv prec emax.
Definition fsqrt : npfloat -> npfloat := SFsqrt prec emax.

(** [x < y]; false as soon as one side is nan. *)
Definition flt : npfloat -> npfloat -> bool := SFltb.

Definition fgt (x y : npfloat) : bool := flt y x.

Definition fle : npfloat -> npfloat -> bool := SFleb.

(** ** Exceptions *)

Inductive exn : Type :=
| ValueError
| IndexError
| TypeError
| NameError
| OverflowError
| LinAlgError.

Inductive result (A : Type) : Type :=
| Ok (a : A)
| Raise (e : exn).
Arguments Ok {A} a.
Arguments Raise {A} e.

Definition rbind {A B} (r : result A) (k : A -> result B) : result B :=
  match r with
  | Ok a => k a
  | Raise e => Raise e
  end.

Declare Scope result_scope.
Delimit Scope result_scope with result.
Notation "'do' x <- r ; k" := (rbind r (fun x => k))
  (at level 10, x name, r at level 100, k at level 200) : result_scope.
Local Open Scope result_scope.

(** ** numpy array primitives *)

(** [a[i]]: a negative index counts from the end, and an index outside
    [-len(a) .. len(a)-1] is an IndexError. *)
Definition getitem {A} (a : list A) (i : Z) : result A :=
  let j := if i <? 0 then Z.of_nat (length a) + i else i in
  if j <? 0 then Raise IndexError
  else match a !! Z.to_nat j with
       | Some x => Ok x
       | None => Raise IndexError
       end.

Fixpoint mapM {A B} (f : A -> result B) (l : list A) : result (list B) :=
  match l with
  | [] => Ok []
  | x :: t => do y <- f x; do ys <- mapM f t; Ok (y :: ys)
  end.

(** [a[idx]] for an integer index array. *)
Definition fancy_index {A} (a : list A) (idx : list Z) : result (list A) :=
  mapM (getitem a) idx.

(** [np.arange(lo, hi)] over the integers. *)
Definition nparange (lo hi : Z) : list Z :=
  map (fun k => lo + Z.of_nat k) (seq 0 (Z.to_nat (hi - lo))).

Definition npsum (l : list npfloat) : npfloat := fold_left fadd l fzero.

(** The larger of two values as [np.max] sees them: nan wins. *)
Definition fmax (x y : npfloat) : npfloat :=
  if isnan x then x else if isnan y then y else if flt x y then y else x.

Definition fmin (x y : npfloat) : npfloat :=
  if isnan x then x else if isnan y then y else if flt y x then y else x.

(** [np.max] and [ndarray.min]: a reduction with no identity, so an empty
    array is a ValueError. *)
Definition npmax (l : list npfloat) : result npfloat :=
  match l with
  | [] => Raise ValueError
  | x :: t => Ok (fold_left fmax t x)
  end.

Definition npmin (l : list npfloat) : result npfloat :=
  match l with
  | [] => Raise ValueError
  | x :: t => Ok (fold_left fmin t x)
  end.

(** The dot product of the overlap of two arrays. *)
Definition dot (a v : list npfloat) : npfloat := npsum (zip_with fmul a v).

(** [np.correlate(a, v, mode='full')]: entry [j] is the dot product of [v]
    with [a] shifted by [j - (len(v) - 1)], over the indices where both are
    defined; an empty argument is a ValueError. *)
Definition npcorrelate_full (a v : list npfloat) : result (list npfloat) :=
  match a, v with
  | [], _ | _, [] => Raise ValueError
  | _, _ =>
      Ok (map (fun j =>
                 let s := Z.of_nat j - (Z.of_nat (length v) - 1) in
                 if 0 <=? s then dot (drop (Z.to_nat s) a) v
                 else dot a (drop (Z.to_nat (- s)) v))
              (seq 0 (length a + length v - 1)))
  end.

(** ** varbase/autocorr.py *)

(** The signature shared by the three estimators:
    [(mags, lag, maglen, magmed, magstd)]. *)
Definition estimator_fn : Type :=
  list npfloat -> Z -> Z -> npfloat -> npfloat -> result npfloat.

(** [products] of [_autocorr_func1] and [_autocorr_func2]. *)
Definition lag_products (mags : list npfloat) (lagindex : list Z) (lag : Z)
    (magmed : npfloat) : result (list npfloat) :=
  do here <- fancy_index mags lagindex;
  do there <- fancy_index mags (map (fun i => i + lag) lagindex);
  Ok (zip_with fmul (map (fun x => fsub x magmed) here)
                    (map (fun x => fsub x magmed) there)).

Definition _autocorr_func1 : estimator_fn :=
  fun mags lag maglen magmed magstd =>
    let lagindex := nparange 1 (maglen - lag) in
    do products <- lag_products mags lagindex lag magmed;
    Ok (fmul (fdiv fone (fmul (of_int (maglen - lag)) magstd))
             (npsum products)).

Definition _autocorr_func2 : estimator_fn :=
  fun mags lag maglen magmed magstd =>
    let lagindex := nparange 0 (maglen - lag) in
    do products <- lag_products mags lagindex lag magmed;
    do here <- fancy_index mags lagindex;
    let autocovarfunc :=
      fdiv (npsum products) (of_int (Z.of_nat (length lagindex))) in
    let dev := map (fun x => fsub x magmed) here in
    let varfunc :=
      fdiv (npsum (zip_with fmul dev dev)) (of_int (Z.of_nat (length mags))) in
    Ok (fdiv autocovarfunc varfunc).

(** [_autocorr_func3]: the whole ACF at once; [lag], [maglen], [magmed] and
    [magstd] are not used.  [int(result.size / 2)] is the centre of the
    double-sided correlation. *)
Definition _autocorr_func3 (mags : list npfloat) (lag maglen : Z)
    (magmed magstd : npfloat) : result (list npfloat) :=
  do result <- npcorrelate_full mags mags;
  do top <- npmax result;
  let result := map (fun x => fdiv x top) result in
  Ok (drop (Z.to_nat (Z.quot (Z.of_nat (length result)) 2)) result).

(** The [func] argument of [autocorr_magseries]: the default
    [_autocorr_func3], which the code recognises by identity, or any other
    per-lag estimator. *)
Inductive estimator : Type :=
| Func3
| Func (f : estimator_fn).

(** Plain Python values, for options and keyword arguments. *)
Inductive pyval : Type :=
| PNone
| PBool (b : bool)
| PInt (z : Z)
| PFloat (x : npfloat)
| PStr (s : string).

(** The options that are only handed on to [fill_magseries_gaps]. *)
Record lcopts : Type := {
  fillgaps : pyval;
  forcetimebin : pyval;
  sigclip : pyval;
  magsarefluxes : bool;
  filterwindow : Z;
  verbose : bool
}.

(** What [fill_magseries_gaps] hands back; [macf_period_find] reads
    ['cadence'] from it. *)
Record interpolated : Type := {
  itimes : list npfloat;
  imags : list npfloat;
  ierrs : list npfloat;
  cadence : npfloat
}.

(** The dict [autocorr_magseries] returns: the interpolated dict updated
    with ['minitime'], ['lags'] and ['acf']. *)
Record acfresult : Type := {
  interp : interpolated;
  minitime : npfloat;
  lags : list Z;
  acf : list npfloat
}.

(** [if maxlags:] holds for an int other than 0. *)
Definition truthy_int (o : option Z) : bool :=
  match o with
  | Some z => negb (z =? 0)
  | None => false
  end.

Section Correlator.

(** [lcmath.fill_magseries_gaps] is not part of these sources: it is the
    resampler the pipeline consumes.  [None] stands for a falsy return. *)
Variable fill_magseries_gaps :
  list npfloat -> list npfloat -> list npfloat -> lcopts ->
  result (option interpolated).

(** [np.median]; its value only reaches the per-lag estimators. *)
Variable npmedian : list npfloat -> npfloat.

(** [autocorr_magseries].  [LOGERROR] is not bound in autocorr.py, so the
    branch taken when the resampler returns nothing ends in a NameError
    before its [return None]. *)
Definition autocorr_magseries (times mags errs : list npfloat)
    (maxlags : option Z) (func : estimator) (opts : lcopts)
    : result acfresult :=
  do filled <- fill_magseries_gaps times mags errs opts;
  match filled with
  | None => Raise NameError
  | Some ip =>
      let lags :=
        if truthy_int maxlags then nparange 0 (default 0 maxlags)
        else nparange 0 (Z.of_nat (length (itimes ip))) in
      let series_stdev :=
        fmul f1_483 (npmedian (map fabs (imags ip))) in
      let size := Z.of_nat (length (imags ip)) in
      do autocorr <-
        match func with
        | Func f =>
            mapM (fun x => f (imags ip) x size fzero series_stdev) lags
        | Func3 =>
            do lag0 <- getitem lags 0;
            _autocorr_func3 (imags ip) lag0 size fzero series_stdev
        end;
      do mintime <- npmin (itimes ip);
      Ok {| interp := ip; minitime := mintime;
            lags := lags; acf := autocorr |}
  end.

End Correlator.

(** ** scipy.signal.argrelmax and argrelmin *)

(** [data.take(i, mode='clip')]: an index outside the array is moved to the
    nearest end. *)
Definition take_clip (data : list npfloat) (i : Z) : npfloat :=
  nth (Z.to_nat (Z.max 0 (Z.min (Z.of_nat (length data) - 1) i))) data nan.

(** Entry [i] is an extremum when it compares strictly against both
    neighbours at every distance [1 .. order]; an order below 1 is a
    ValueError. *)
Definition boolrelextrema (cmp : npfloat -> npfloat -> bool)
    (data : list npfloat) (order : Z) : result (list bool) :=
  if order <? 1 then Raise ValueError
  else
    Ok (map (fun i =>
               forallb (fun shift =>
                          cmp (take_clip data i) (take_clip data (i + shift))
                          && cmp (take_clip data i) (take_clip data (i - shift)))
                       (nparange 1 (order + 1)))
            (nparange 0 (Z.of_nat (length data)))).

(** [np.nonzero]: the indices of the true entries. *)
Definition nonzero (mask : list bool) : list Z :=
  List.filter (fun i => nth (Z.to_nat i) mask false)
              (nparange 0 (Z.of_nat (length mask))).

Definition argrelmax (data : list npfloat) (order : Z) : result (list Z) :=
  do mask <- boolrelextrema fgt data order; Ok (nonzero mask).

Definition argrelmin (data : list npfloat) (order : Z) : result (list Z) :=
  do mask <- boolrelextrema flt data order; Ok (nonzero mask).

(** ** periodbase/macf.py: the peak extractor *)

(** The dict [_get_acf_peakheights] returns. *)
Record peakresult : Type := {
  maxinds : list Z;
  maxacfs : list npfloat;
  maxlags : list Z;
  mininds : list Z;
  minacfs : list npfloat;
  minlags : list Z;
  relpeakheights : list npfloat;
  relpeaklags : list Z;
  peakindices : list Z;
  bestlag : Z;
  bestpeakheight : npfloat;
  bestpeakindex : Z
}.

(** The height of the maximum at [mxi] above the mean of the last minimum
    to its left and the first minimum to its right. *)
Definition relpeakheight (acf : list npfloat) (mininds : list Z) (mxi : Z)
    : result npfloat :=
  do leftminind <- getitem (List.filter (fun m => m <? mxi) mininds) (-1);
  do rightminind <- getitem (List.filter (fun m => mxi <? m) mininds) 0;
  do top <- getitem acf mxi;
  do left <- getitem acf leftminind;
  do right <- getitem acf rightminind;
  Ok (fsub top (fdiv (fadd left right) ftwo)).

(** The three placeholder arrays the loop fills in. *)
Record peakarrays : Type := {
  heights : list npfloat;
  peaklags : list Z;
  indices : list Z
}.

(** The body of the [for peakind, mxi in enumerate(...)] loop, from
    position [peakind] on. *)
Fixpoint peak_loop (lags : list Z) (acf : list npfloat) (mininds : list Z)
    (peakind : nat) (todo : list Z) (arr : peakarrays) : result peakarrays :=
  match todo with
  | [] => Ok arr
  | mxi :: rest =>
      do h <- relpeakheight acf mininds mxi;
      do lag <- getitem lags mxi;
      peak_loop lags acf mininds (S peakind) rest
        {| heights := <[peakind := h]> (heights arr);
           peaklags := <[peakind := lag]> (peaklags arr);
           indices := <[peakind := Z.of_nat peakind]> (indices arr) |}
  end.

(** [np.zeros(n)]; a negative length is a ValueError. *)
Definition npzeros {A} (zero : A) (n : Z) : result (list A) :=
  if n <? 0 then Raise ValueError else Ok (replicate (Z.to_nat n) zero).

(** The [if relpeakheights[0] > relpeakheights[1]] block: the best lag,
    its peak height and its peak index, from the first or from the second
    position of the arrays. *)
Definition pick_best (arr : peakarrays) : result (Z * npfloat * Z) :=
  do h0 <- getitem (heights arr) 0;
  do h1 <- getitem (heights arr) 1;
  if fgt h0 h1 then
    do l <- getitem (peaklags arr) 0;
    do i <- getitem (indices arr) 0;
    Ok (l, h0, i)
  else
    do l <- getitem (peaklags arr) 1;
    do i <- getitem (indices arr) 1;
    Ok (l, h1, i).

Definition _get_acf_peakheights (lags : list Z) (acf : list npfloat)
    (npeaks searchinterval : Z) : result peakresult :=
  do maxinds <- argrelmax acf searchinterval;
  do maxacfs <- fancy_index acf maxinds;
  do maxlags <- fancy_index lags maxinds;
  do mininds <- argrelmin acf searchinterval;
  do minacfs <- fancy_index acf mininds;
  do minlags <- fancy_index lags mininds;
  do relpeakheights <- npzeros fzero npeaks;
  do relpeaklags <- npzeros 0 npeaks;
  do peakindices <- npzeros 0 npeaks;
  do arr <- peak_loop lags acf mininds 0 (take (Z.to_nat npeaks) maxinds)
              {| heights := relpeakheights; peaklags := relpeaklags;
                 indices := peakindices |};
  do best <- pick_best arr;
  let '(l, h, i) := best in
  Ok {| maxinds := maxinds; maxacfs := maxacfs; maxlags := maxlags;
        mininds := mininds; minacfs := minacfs; minlags := minlags;
        relpeakheights := heights arr; relpeaklags := peaklags arr;
        peakindices := indices arr;
        bestlag := l; bestpeakheight := h; bestpeakindex := i |}.

(** ** periodbase/macf.py: the period finder *)

(** A dict object lives in the store and is passed around by reference. *)
Definition loc : Type := positive.

(** The lines [LOGWARNING] writes. *)
Inductive logline : Type :=
| FitFailedWarning
| AliasWarning (fitbestperiod naivebestperiod : npfloat).

Record world : Type := {
  store : gmap loc (gmap string pyval);
  logged : list logline
}.

(** The dict a reference points to. *)
Definition deref (w : world) (l : loc) : gmap string pyval :=
  default ∅ (store w !! l).

(** The one dict created when [macf_period_find] is defined: the default
    value of [smoothfunckwargs], shared by every call that passes none. *)
Definition default_smoothfunckwargs : loc := 1%positive.

(** Code that may raise, write to the log and update dicts in place. *)
Definition M (A : Type) : Type := world -> result A * world.

Definition ret {A} (a : A) : M A := fun w => (Ok a, w).

Definition bind {A B} (m : M A) (k : A -> M B) : M B :=
  fun w =>
    match m w with
    | (Ok a, w1) => k a w1
    | (Raise e, w1) => (Raise e, w1)
    end.

Definition lift {A} (r : result A) : M A := fun w => (r, w).

Definition LOGWARNING (line : logline) : M unit :=
  fun w => (Ok tt, {| store := store w; logged := logged w ++ [line] |}).

(** [d.update({key: v})] on the dict at [l]. *)
Definition dict_update (l : loc) (key : string) (v : pyval) : M unit :=
  fun w => (Ok tt, {| store := <[l := <[key := v]> (deref w l)]> (store w);
                      logged := logged w |}).

Definition dict_read (l : loc) : M (gmap string pyval) :=
  fun w => (Ok (deref w l), w).

(** [try: body  except: handler; raise]: the exception of the body is
    raised again once the handler has run. *)
Definition try_except_reraise {A} (body : M A) (handler : M unit) : M A :=
  fun w =>
    match body w with
    | (Ok a, w1) => (Ok a, w1)
    | (Raise e, w1) =>
        match handler w1 with
        | (Ok _, w2) => (Raise e, w2)
        | (Raise e', w2) => (Raise e', w2)
        end
    end.

Notation "'run' x <- m ; k" := (bind m (fun x => k))
  (at level 10, x name, m at level 100, k at level 200) : result_scope.

(** The values stored in the dict [macf_period_find] returns. *)
Record kwargs_echo : Type := {
  echo_maxlags : option Z;
  echo_maxacfpeaks : Z;
  echo_fillgaps : pyval;
  echo_filterwindow : Z;
  echo_smoothacf : pyval;
  echo_smoothfunckwargs : loc;
  echo_magsarefluxes : bool;
  echo_sigclip : pyval
}.

Inductive rval : Type :=
| RFloat (x : npfloat)
| RInt (z : Z)
| RStr (s : string)
| RFloats (l : list npfloat)
| RInts (l : list Z)
| RMatrix (m : list (list npfloat))
| RKwargs (k : kwargs_echo)
| RAcf (a : acfresult)
| RPeaks (p : peakresult).

(** A returned dict: its items in the order of the dict display. *)
Definition pydict : Type := list (string * rval).

Fixpoint dict_get (key : string) (d : pydict) : option rval :=
  match d with
  | [] => None
  | (k, v) :: rest => if String.eqb k key then Some v else dict_get key rest
  end.

Definition dict_keys (d : pydict) : list string := map fst d.

(** [smoothacf and isinstance(smoothacf, int) and smoothacf > 0]: only an
    int passes the [isinstance] test, and a bool is an int. *)
Definition smoothing_enabled (smoothacf : pyval) : bool :=
  match smoothacf with
  | PInt z => negb (z =? 0) && (0 <? z)
  | PBool b => b
  | PNone | PFloat _ | PStr _ => false
  end.

(** [z / 2] for a Python int [z]: the float nearest to the quotient, and
    an OverflowError when that is beyond the floats. *)
Definition int_truediv2 (z : Z) : result npfloat :=
  match float_of z (-1) with
  | S754_infinity _ => Raise OverflowError
  | q => Ok q
  end.

(** [int(x)] for a float: the integer part; nan is a ValueError and an
    infinity an OverflowError. *)
Definition int_of_float (x : npfloat) : result Z :=
  match x with
  | S754_zero _ => Ok 0
  | S754_finite s m e =>
      let a := Z.shiftl (Z.pos m) e in
      Ok (if s then - a else a)
  | S754_infinity _ => Raise OverflowError
  | S754_nan => Raise ValueError
  end.

(** [int(smoothacf/2)]: None and a str cannot be divided (TypeError); an
    int or a bool gives the float quotient, a float is divided by 2.0, and
    [int] takes the integer part. *)
Definition half_window (smoothacf : pyval) : result Z :=
  match smoothacf with
  | PNone | PStr _ => Raise TypeError
  | PBool b => do q <- int_truediv2 (if b then 1 else 0); int_of_float q
  | PInt z => do q <- int_truediv2 z; int_of_float q
  | PFloat x => int_of_float (fdiv x ftwo)
  end.

(** A smoothing function, called as [smoothfunc(acf, **smoothfunckwargs)]. *)
Definition smoother : Type :=
  list npfloat -> gmap string pyval -> result (list npfloat).

(** Binding [**kwargs] to a signature: a keyword the function does not
    have is a TypeError. *)
Definition accepts (names : gset string) (kwargs : gmap string pyval) : bool :=
  bool_decide (dom kwargs ⊆ names).

Section Smoothers.

(** [scipy.signal.savgol_filter(x, window_length, polyorder)]. *)
Variable savgol_filter :
  list npfloat -> pyval -> pyval -> result (list npfloat).

(** [convolve(acf, Gaussian1DKernel(width, x_size=size),
    boundary='extend')] of astropy.convolution. *)
Variable gaussian_convolve :
  list npfloat -> pyval -> pyval -> result (list npfloat).

(** [_smooth_acf(acf, windowfwhm=7, windowsize=21)]. *)
Definition _smooth_acf : smoother :=
  fun acf kwargs =>
    if accepts {[ "windowfwhm"; "windowsize" ]} kwargs then
      gaussian_convolve acf (default (PInt 7) (kwargs !! "windowfwhm"))
                            (default (PInt 21) (kwargs !! "windowsize"))
    else Raise TypeError.

(** [_smooth_acf_savgol(acf, windowsize=21, polyorder=2)], the default
    [smoothfunc]. *)
Definition _smooth_acf_savgol : smoother :=
  fun acf kwargs =>
    if accepts {[ "windowsize"; "polyorder" ]} kwargs then
      savgol_filter acf (default (PInt 21) (kwargs !! "windowsize"))
                        (default (PInt 2) (kwargs !! "polyorder"))
    else Raise TypeError.

End Smoothers.

(** The samples of the linear fit: the peak number against the time of
    the peak. *)
Definition fit_samples (peakres : peakresult) (cadence : npfloat)
    : list npfloat * list npfloat :=
  let fity :=
    map (fun y => fmul y cadence)
        ([fzero; of_int (bestlag peakres)]
         ++ map of_int (List.filter (fun l => bestlag peakres <? l)
                                    (relpeaklags peakres))) in
  let fitx := map of_int (nparange 0 (Z.of_nat (length fity))) in
  (fitx, fity).

(** What the [try] block binds. *)
Record linefit : Type := {
  fitcoeffs : list npfloat;
  fitcovar : list (list npfloat);
  fitbestperiod : npfloat;
  bestperiodrms : npfloat
}.

Section PeriodFinder.

Variable fill_magseries_gaps :
  list npfloat -> list npfloat -> list npfloat -> lcopts ->
  result (option interpolated).
Variable npmedian : list npfloat -> npfloat.

(** [np.polyfit(x, y, deg, cov=True)]: the coefficients, highest power
    first, and their covariance matrix. *)
Variable polyfit :
  list npfloat -> list npfloat -> Z ->
  result (list npfloat * list (list npfloat)).

(** [np.sqrt]. *)
Variable npsqrt : npfloat -> npfloat.

(** The body of the [try] block. *)
Definition fit_line (peakres : peakresult) (cadence : npfloat)
    : result linefit :=
  let '(fitx, fity) := fit_samples peakres cadence in
  do fit <- polyfit fitx fity 1;
  let '(fitcoeffs, fitcovar) := fit in
  do slope <- getitem fitcoeffs 0;
  do row0 <- getitem fitcovar 0;
  do var0 <- getitem row0 0;
  Ok {| fitcoeffs := fitcoeffs; fitcovar := fitcovar;
        fitbestperiod := slope; bestperiodrms := npsqrt var0 |}.

(** [macf_period_find]; [opts] holds the arguments that are only handed
    on to the resampler and echoed, and [smoothfunckwargs] is the
    reference the caller passes ([default_smoothfunckwargs] when the
    argument is left out). *)
Definition macf_period_find (times mags errs : list npfloat)
    (maxlags : option Z) (maxacfpeaks : Z) (opts : lcopts)
    (smoothacf : pyval) (smoothfunc : smoother) (smoothfunckwargs : loc)
    : M pydict :=
  run acfres <- lift (autocorr_magseries fill_magseries_gaps npmedian
                        times mags errs maxlags Func3 opts);
  let xlags := lags acfres in
  run xacf <-
    (if smoothing_enabled smoothacf then
       run _ <- dict_update smoothfunckwargs "windowsize" smoothacf;
       run kwargs <- dict_read smoothfunckwargs;
       lift (smoothfunc (acf acfres) kwargs)
     else ret (acf acfres));
  run searchinterval <- lift (half_window smoothacf);
  run peakres <- lift (_get_acf_peakheights xlags xacf maxacfpeaks
                         searchinterval);
  let bestlspval := bestpeakheight peakres in
  (* the handler also rebinds the four fit variables to nan; its closing
     [raise] leaves the function before anything reads them *)
  run fit <- try_except_reraise
               (lift (fit_line peakres (cadence (interp acfres))))
               (LOGWARNING FitFailedWarning);
  let naivebestperiod :=
    fmul (of_int (bestlag peakres)) (cadence (interp acfres)) in
  run _ <- (if flt (fitbestperiod fit) naivebestperiod
            then LOGWARNING (AliasWarning (fitbestperiod fit) naivebestperiod)
            else ret tt);
  let bestperiod :=
    if isfinite (fitbestperiod fit) then fitbestperiod fit
    else naivebestperiod in
  ret [("bestperiod", RFloat bestperiod);
       ("bestlspval", RFloat bestlspval);
       ("nbestpeaks", RInt maxacfpeaks);
       ("lspvals", RFloats xacf);
       ("periods", RFloats (map (fun l => fmul (of_int l)
                                             (cadence (interp acfres)))
                                xlags));
       ("acf", RFloats xacf);
       ("lags", RInts xlags);
       ("method", RStr "acf");
       ("naivebestperiod", RFloat naivebestperiod);
       ("fitbestperiod", RFloat (fitbestperiod fit));
       ("fitperiodrms", RFloat (bestperiodrms fit));
       ("periodfitcoeffs", RFloats (fitcoeffs fit));
       ("periodfitcovar", RMatrix (fitcovar fit));
       ("kwargs", RKwargs
          {| echo_maxlags := maxlags;
             echo_maxacfpeaks := maxacfpeaks;
             echo_fillgaps := fillgaps opts;
             echo_filterwindow := filterwindow opts;
             echo_smoothacf := smoothacf;
             echo_smoothfunckwargs := smoothfunckwargs;
             echo_magsarefluxes := magsarefluxes opts;
             echo_sigclip := sigclip opts |});
       ("acfresults", RAcf acfres);
       ("acfpeaks", RPeaks peakres)].

End PeriodFinder.

(** ** Collaborators outside these sources

    The theorems below hold for every resampler, median, line fit and
    square root; the instances here make the examples run. *)

(** A resampler for a series that is already evenly sampled with no gaps:
    it hands the series back with its cadence. *)
Definition resample_uniform (cadence : npfloat)
    : list npfloat -> list npfloat -> list npfloat -> lcopts ->
      result (option interpolated) :=
  fun times mags errs _ =>
    Ok (Some {| itimes := times; imags := mags; ierrs := errs;
                cadence := cadence |}).

Fixpoint insert_sorted (x : npfloat) (l : list npfloat) : list npfloat :=
  match l with
  | [] => [x]
  | y :: t => if fle x y then x :: l else y :: insert_sorted x t
  end.

(** [np.median]: nan as soon as an entry is nan and for an empty array;
    otherwise the middle entry of the sorted array, or the mean of the two
    middle entries. *)
Definition median (l : list npfloat) : npfloat :=
  if existsb isnan l then nan
  else
    let sorted := foldr insert_sorted [] l in
    let n := length l in
    if (n =? 0)%nat then nan
    else if Nat.even n
    then fdiv (fadd (nth (n / 2 - 1) sorted nan) (nth (n / 2) sorted nan))
              ftwo
    else nth (n / 2) sorted nan.

(** A least-squares line with [np.polyfit]'s interface for [deg = 1] and
    [cov=True]: TypeError for an empty [x] or arrays of different lengths,
    ValueError when there are not more than two points to scale the
    covariance with; otherwise the slope and intercept from the normal
    equations, and the covariance of the two scaled by the residual sum of
    squares over [len(x) - 2].  numpy solves the same problem through a
    singular value decomposition, so its coefficients agree with these up
    to rounding only. *)
Definition polyfit_line (x y : list npfloat) (deg : Z)
    : result (list npfloat * list (list npfloat)) :=
  if negb (deg =? 1) then Raise ValueError
  else if (length x =? 0)%nat then Raise TypeError
  else if negb (length x =? length y)%nat then Raise TypeError
  else if (length x <=? 2)%nat then Raise ValueError
  else
    let n := of_int (Z.of_nat (length x)) in
    let sx := npsum x in
    let sy := npsum y in
    let sxx := npsum (zip_with fmul x x) in
    let sxy := npsum (zip_with fmul x y) in
    let det := fsub (fmul n sxx) (fmul sx sx) in
    let slope := fdiv (fsub (fmul n sxy) (fmul sx sy)) det in
    let icept := fdiv (fsub sy (fmul slope sx)) n in
    let res := zip_with (fun xi yi => fsub yi (fadd (fmul slope xi) icept))
                        x y in
    let fac := fdiv (npsum (zip_with fmul res res)) (fsub n ftwo) in
    let scale v := fmul (fdiv v det) fac in
    Ok ([slope; icept],
        [[scale n; scale (fneg sx)]; [scale (fneg sx); scale sxx]]).

(** A smoothing function that accepts a window size and leaves the
    sequence as it is: [lambda acf, windowsize: acf]. *)
Definition smooth_nothing : smoother :=
  fun acf kwargs =>
    if decide (dom kwargs = {["windowsize"]}) then Ok acf
    else Raise TypeError.

Definition no_opts : lcopts :=
  {| fillgaps := PFloat fzero; forcetimebin := PNone;
     sigclip := PFloat (of_int 3); magsarefluxes := false;
     filterwindow := 11; verbose := true |}.

(** The store when the module has just been loaded: the default
    [smoothfunckwargs] dict is empty. *)
Definition fresh_world : world :=
  {| store := {[ default_smoothfunckwargs := ∅ ]}; logged := [] |}.


(** ** Vocabulary for the statements about the peak extractor *)

(** One turn of the loop over the maxima: the relative height and the lag
    written at the position of the maximum [mxi]. *)
Definition peak_item (lags : list Z) (acf : list npfloat) (mininds : list Z)
    (mxi : Z) : result (npfloat * Z) :=
  do h <- relpeakheight acf mininds mxi;
  do lag <- getitem lags mxi;
  Ok (h, lag).

(** The maximum at [mxi] has a minimum on its left and one on its right. *)
Definition bracketed (mininds : list Z) (mxi : Z) : bool :=
  existsb (fun m => m <? mxi) mininds && existsb (fun m => mxi <? m) mininds.

(** The placeholder arrays once the loop has written [items] at the
    front of arrays of length [n]. *)
Definition filled {A B} (f : A -> B) (zero : B) (n : nat) (items : list A)
    : list B :=
  map f items ++ replicate (n - length items) zero.

(** ** Vocabulary for the statements about the period finder *)

(** The world after [smoothfunckwargs.update({'windowsize': v})] on the
    dict at [kw]. *)
Definition with_windowsize (w : world) (kw : loc) (v : pyval) : world :=
  {| store := <[kw := <["windowsize" := v]> (deref w kw)]> (store w);
     logged := logged w |}.

(** The world after more lines have been logged. *)
Definition with_log (w : world) (lines : list logline) : world :=
  {| store := store w; logged := logged w ++ lines |}.

(** The dict of a run that got through every stage. *)
Definition result_dict (maxlags : option Z) (maxacfpeaks : Z) (opts : lcopts)
    (smoothacf : pyval) (smoothfunckwargs : loc)
    (acfres : acfresult) (xacf : list npfloat) (peakres : peakresult)
    (fit : linefit) : pydict :=
  let naivebestperiod :=
    fmul (of_int (bestlag peakres)) (cadence (interp acfres)) in
  [("bestperiod", RFloat (if isfinite (fitbestperiod fit)
                          then fitbestperiod fit else naivebestperiod));
   ("bestlspval", RFloat (bestpeakheight peakres));
   ("nbestpeaks", RInt maxacfpeaks);
   ("lspvals", RFloats xacf);
   ("periods", RFloats (map (fun l => fmul (of_int l)
                                         (cadence (interp acfres)))
                            (lags acfres)));
   ("acf", RFloats xacf);
   ("lags", RInts (lags acfres));
   ("method", RStr "acf");
   ("naivebestperiod", RFloat naivebestperiod);
   ("fitbestperiod", RFloat (fitbestperiod fit));
   ("fitperiodrms", RFloat (bestperiodrms fit));
   ("periodfitcoeffs", RFloats (fitcoeffs fit));
   ("periodfitcovar", RMatrix (fitcovar fit));
   ("kwargs", RKwargs
      {| echo_maxlags := maxlags;
         echo_maxacfpeaks := maxacfpeaks;
         echo_fillgaps := fillgaps opts;
         echo_filterwindow := filterwindow opts;
         echo_smoothacf := smoothacf;
         echo_smoothfunckwargs := smoothfunckwargs;
         echo_magsarefluxes := magsarefluxes opts;
         echo_sigclip := sigclip opts |});
   ("acfresults", RAcf acfres);
   ("acfpeaks", RPeaks peakres)].

(** The alias warning, if the fitted period calls for it. *)
Definition alias_lines (fit naive : npfloat) : list logline :=
  if flt fit naive then [AliasWarning fit naive] else [].


(** The sixteen keys of the dict [macf_period_find] returns. *)
Definition result_keys : list string :=
  ["bestperiod"; "bestlspval"; "nbestpeaks"; "lspvals"; "periods"; "acf";
   "lags"; "method"; "naivebestperiod"; "fitbestperiod"; "fitperiodrms";
   "periodfitcoeffs"; "periodfitcovar"; "kwargs"; "acfresults";
   "acfpeaks"]%string.

(** The world a call leaves once the Correlator has returned: the window
    size is written when smoothing is enabled. *)
Definition after_smoothing (w : world) (kw : loc) (smoothacf : pyval)
    : world :=
  if smoothing_enabled smoothacf then with_windowsize w kw smoothacf else w.

(** A finite number other than 0. *)
Definition finite_nonzero (x : npfloat) : bool :=
  match x with S754_finite _ _ _ => true | _ => false end.

(** The deviations of the samples from [magmed]. *)
Definition deviations (mags : list npfloat) (magmed : npfloat)
    : list npfloat :=
  map (fun x => fsub x magmed) mags.


(** ** Sample inputs *)

(** The sample times [0, 1, .., n-1]. *)
Definition sample_times (n : nat) : list npfloat :=
  map of_int (nparange 0 (Z.of_nat n)).

(** Two alternating series and two with an uneven tail. *)
Definition alternating5 : list npfloat := map of_int [1; -1; 1; -1; 1].
Definition alternating7 : list npfloat :=
  map of_int [1; -1; 1; -1; 1; -1; 1].
Definition uneven8 : list npfloat :=
  map of_int [-1; -1; -1; -1; 1; -1; 1; 2].
Definition uneven10 : list npfloat :=
  map of_int [-1; -1; -1; -1; -1; -1; 1; -1; 1; -1].

(** The floats 1.2 and 1.3 scaled by [2^-537], three times over: the
    products of two samples lie below the smallest normal number. *)
Definition tiny6 : list npfloat :=
  let a := S754_finite false 5404319552844595 (-589) in
  let b := S754_finite false 5854679515581645 (-589) in
  [a; b; a; b; a; b].

(** Twice [2^600]: the square of a sample lies beyond the largest
    float. *)
Definition huge2 : list npfloat := [float_of 1 600; float_of 1 600].

(** An ACF with maxima at lags 2, 4 and 6, the last the tallest, and
    minima at lags 1, 3, 5 and 7. *)
Definition three_peaks : list npfloat :=
  map of_int [5; 1; 4; 0; 3; 1; 9; 0; 1].

(** The same with the first maximum lowered below the second. *)
Definition low_first_peak : list npfloat :=
  map of_int [5; 1; 2; 0; 3; 1; 9; 0; 1].

(** The correlator and the period finder on an evenly sampled series of
    cadence 1, with the collaborators above. *)
Definition demo_correlator (mags : list npfloat) (maxlags : option Z)
    : result acfresult :=
  autocorr_magseries (resample_uniform fone) median
    (sample_times (length mags)) mags [] maxlags Func3 no_opts.

Definition demo_finder (mags : list npfloat) (maxacfpeaks : Z)
    (smoothacf : pyval) (smoothfunckwargs : loc) : M pydict :=
  macf_period_find (resample_uniform fone) median
    polyfit_line fsqrt
    (sample_times (length mags)) mags [] None maxacfpeaks no_opts
    smoothacf smooth_nothing smoothfunckwargs.


(** * The default estimator at lag 0 *)

(** ** Facts about float64 *)

(** A finite number other than 0 divided by itself is exactly 1.0: the
    quotient of the mantissas is [2^53] with remainder 0, and rounding
    leaves it as it is. *)
Lemma fdiv_self (x : npfloat) : finite_nonzero x = true -> fdiv x x = fone.
Proof.
  destruct x as [| | |s m e]; try discriminate. intros _.
  unfold fdiv, SFdiv, SFdiv_core_binary.
  replace (Zdigits2 (Z.pos m) + e - (Zdigits2 (Z.pos m) + e)) with 0 by lia.
  replace (e - e) with 0 by lia.
  change (Z.min (fexp prec emax 0) 0) with (-53).
  change (0 - -53) with 53.
  cbv iota beta.
  assert (H : Z.div_eucl (Z.shiftl (Z.pos m) 53) (Z.pos m) = (2 ^ 53, 0)).
  { rewrite Z.shiftl_mul_pow2 by lia.
    pose proof (Z.div_eucl_eq (Z.pos m * 2 ^ 53) (Z.pos m) ltac:(lia)) as E.
    pose proof (Z.mod_pos_bound (Z.pos m * 2 ^ 53) (Z.pos m) ltac:(lia)) as B.
    unfold Z.modulo, Z.div in *.
    destruct (Z.div_eucl (Z.pos m * 2 ^ 53) (Z.pos m)) as [q r].
    assert (Z.pos m * (q - 2 ^ 53) = - r) by lia.
    assert (q - 2 ^ 53 = 0) by nia.
    assert (r = 0 /\ q = 2 ^ 53) as [-> ->] by (split; nia).
    reflexivity. }
  rewrite H, Bool.xorb_nilpotent.
  unfold new_location. destruct (Z.even (Z.pos m)); reflexivity.
Qed.

(** The conversions of the small integers are the literals. *)
Example of_int_literals :
  of_int 0 = fzero /\ of_int 1 = fone /\ of_int 2 = ftwo
  /\ fdiv (of_int 1483) (of_int 1000) = f1_483.
Proof. repeat split; vm_compute; reflexivity. Qed.

(** ** Arrays *)

Lemma map_lookup_seq {A} (f : nat -> A) (len k : nat) :
  (k < len)%nat -> map f (seq 0 len) !! k = Some (f k).
Proof.
  intros Hk. change (map f (seq 0 len)) with (f <$> seq 0 len).
  rewrite list_lookup_fmap, lookup_seq_lt by exact Hk. reflexivity.
Qed.

Lemma map_lookup {A B} (f : A -> B) (l : list A) (k : nat) (x : A) :
  l !! k = Some x -> map f l !! k = Some (f x).
Proof.
  intros H. change (map f l) with (f <$> l).
  rewrite list_lookup_fmap, H. reflexivity.
Qed.

Lemma npcorrelate_full_nonempty (a v : list npfloat) :
  a <> [] -> v <> [] ->
  npcorrelate_full a v
  = Ok (map (fun j =>
               let s := Z.of_nat j - (Z.of_nat (length v) - 1) in
               if 0 <=? s then dot (drop (Z.to_nat s) a) v
               else dot a (drop (Z.to_nat (- s)) v))
            (seq 0 (length a + length v - 1))).
Proof. destruct a, v; intros; try contradiction; reflexivity. Qed.

(** ** The ACF at lag 0 *)

(** C5, as the code has it.  For a non-empty value sequence the default
    estimator [_autocorr_func3] returns one entry per sample, and its
    entry at lag 0 is the zero-lag correlation, the central entry of the
    double-sided correlation, divided by the maximum [np.max] finds in
    the double-sided correlation.  It is exactly 1.0 whenever the zero-lag
    correlation is a finite number other than 0 and is itself that
    maximum. *)
Theorem autocorr_func3_lag0 (mags : list npfloat) (lag maglen : Z)
    (magmed magstd : npfloat) :
  mags <> [] ->
  exists full top rest,
    npcorrelate_full mags mags = Ok full
    /\ full !! (length mags - 1)%nat = Some (dot mags mags)
    /\ npmax full = Ok top
    /\ _autocorr_func3 mags lag maglen magmed magstd
       = Ok (fdiv (dot mags mags) top :: rest)
    /\ length (fdiv (dot mags mags) top :: rest) = length mags
    /\ (finite_nonzero (dot mags mags) = true -> top = dot mags mags ->
        fdiv (dot mags mags) top = fone).
Proof.
  intros Hne.
  unfold _autocorr_func3.
  rewrite npcorrelate_full_nonempty by exact Hne. cbn [rbind].
  set (n := length mags).
  set (f := fun j : nat =>
              let s := Z.of_nat j - (Z.of_nat n - 1) in
              if 0 <=? s then dot (drop (Z.to_nat s) mags) mags
              else dot mags (drop (Z.to_nat (- s)) mags)).
  set (L := map f (seq 0 (n + n - 1))).
  assert (Hn : (1 <= n)%nat).
  { subst n. destruct mags; [contradiction | simpl; lia]. }
  assert (Hcentre : L !! (n - 1)%nat = Some (dot mags mags)).
  { subst L. rewrite map_lookup_seq by lia. f_equal. subst f. cbn beta zeta.
    replace (Z.of_nat (n - 1) - (Z.of_nat n - 1)) with 0 by lia.
    reflexivity. }
  assert (HL : length L = (n + n - 1)%nat)
    by (subst L; rewrite length_map, length_seq; reflexivity).
  assert (Hmax : exists top, npmax L = Ok top).
  { destruct L; [simpl in HL; lia | eexists; reflexivity]. }
  destruct Hmax as [top Hmax]. rewrite Hmax. cbn [rbind].
  rewrite length_map, HL.
  replace (Z.to_nat (Z.of_nat (n + n - 1) `quot` 2)) with (n - 1)%nat.
  2:{ rewrite Z.quot_div_nonneg by lia.
      assert (Z.of_nat (n + n - 1) / 2 = Z.of_nat (n - 1)) as ->; [| lia].
      symmetry. apply Z.div_unique with 1; lia. }
  erewrite drop_S by (apply map_lookup; exact Hcentre).
  exists L, top. eexists.
  split; [reflexivity |]. split; [exact Hcentre |].
  split; [exact Hmax |]. split; [reflexivity |].
  split.
  - simpl. rewrite length_drop, length_map, HL. lia.
  - intros Hfin ->. apply fdiv_self. exact Hfin.
Qed.

Lemma autocorr_func3_lag0_witness :
  exists full top rest,
    npcorrelate_full (map of_int [1; 2; 3]) (map of_int [1; 2; 3]) = Ok full
    /\ full !! 2%nat = Some (of_int 14)
    /\ npmax full = Ok top
    /\ _autocorr_func3 (map of_int [1; 2; 3]) 0 3 fzero fzero
       = Ok (fone :: rest)
    /\ length (fone :: rest) = 3%nat.
Proof.
  destruct (autocorr_func3_lag0 (map of_int [1; 2; 3]) 0 3 fzero fzero)
    as (full & top & rest & Hfull & Hc & Hmax & Hacf & Hlen & Hone);
    [discriminate |].
  assert (Hdot : dot (map of_int [1; 2; 3]) (map of_int [1; 2; 3])
                 = of_int 14) by (vm_compute; reflexivity).
  assert (Htop : top = of_int 14).
  { vm_compute in Hfull. inversion Hfull; subst full.
    vm_compute in Hmax. inversion Hmax. vm_compute. reflexivity. }
  assert (H1 : fdiv (dot (map of_int [1; 2; 3]) (map of_int [1; 2; 3])) top
               = fone)
    by (apply Hone; rewrite Hdot; [reflexivity | exact Htop]).
  rewrite H1 in Hacf, Hlen.
  rewrite Hdot in Hc.
  exists full, top, rest. repeat split; assumption.
Defined.

(** The ACF of the series 1, 2, 3: the double-sided correlation
    3, 8, 14, 8, 3 over its centre 14, from the centre on. *)
Example autocorr_func3_of_1_2_3 :
  npcorrelate_full (map of_int [1; 2; 3]) (map of_int [1; 2; 3])
  = Ok (map of_int [3; 8; 14; 8; 3])
  /\ _autocorr_func3 (map of_int [1; 2; 3]) 0 3 fzero fzero
     = Ok [fone; fdiv (of_int 8) (of_int 14); fdiv (of_int 3) (of_int 14)].
Proof. split; vm_compute; reflexivity. Qed.

(** With all samples 0 the zero-lag correlation is 0 and every entry of
    the ACF is 0/0. *)
Example autocorr_func3_of_zeros :
  _autocorr_func3 [fzero; fzero] 0 2 fzero fzero = Ok [nan; nan].
Proof. vm_compute. reflexivity. Qed.


(** ** The Correlator: what it returns and when it fails *)

Lemma length_mapM {A B} (f : A -> result B) (l : list A) (out : list B) :
  mapM f l = Ok out -> length out = length l.
Proof.
  revert out. induction l as [|x l IH]; intros out; simpl.
  - intros H; inversion H. reflexivity.
  - destruct (f x); [| discriminate]. cbn [rbind].
    destruct (mapM f l) as [ys|]; [| discriminate]. cbn [rbind].
    intros H; inversion H. simpl. f_equal. apply IH. reflexivity.
Qed.

Lemma length_nparange (lo hi : Z) :
  length (nparange lo hi) = Z.to_nat (hi - lo).
Proof. unfold nparange. rewrite length_map, length_seq. reflexivity. Qed.

Lemma nparange_lookup (lo hi : Z) (k : nat) :
  (k < Z.to_nat (hi - lo))%nat ->
  nparange lo hi !! k = Some (lo + Z.of_nat k).
Proof.
  intros Hk. unfold nparange.
  exact (map_lookup_seq (fun k => lo + Z.of_nat k) _ k Hk).
Qed.

Lemma nparange_last (hi : Z) : 1 <= hi -> last (nparange 0 hi) = Some (hi - 1).
Proof.
  intros Hhi. rewrite last_lookup, length_nparange, nparange_lookup by lia.
  f_equal. lia.
Qed.

Lemma nparange_head (hi : Z) : 1 <= hi -> getitem (nparange 0 hi) 0 = Ok 0.
Proof.
  intros Hhi. unfold getitem. simpl.
  rewrite nparange_lookup by lia. reflexivity.
Qed.

(** On a non-empty array the default estimator returns one value per
    sample, whatever the values are. *)
Lemma autocorr_func3_length (mags : list npfloat) (lag maglen : Z)
    (magmed magstd : npfloat) :
  mags <> [] ->
  exists out, _autocorr_func3 mags lag maglen magmed magstd = Ok out
              /\ length out = length mags.
Proof.
  intros Hne. unfold _autocorr_func3.
  rewrite npcorrelate_full_nonempty by exact Hne. cbn [rbind].
  set (n := length mags).
  assert (Hn : (1 <= n)%nat) by (subst n; destruct mags; [contradiction | simpl; lia]).
  match goal with |- context [npmax ?l] => set (L := l) end.
  assert (HL : length L = (n + n - 1)%nat)
    by (subst L; rewrite length_map, length_seq; reflexivity).
  destruct L as [|x L'] eqn:EL; [simpl in HL; lia |].
  cbn [npmax rbind]. eexists. split; [reflexivity |].
  rewrite length_drop, !length_map, HL.
  rewrite Z.quot_div_nonneg by lia.
  assert (Z.of_nat (n + n - 1) / 2 = Z.of_nat (n - 1)) as ->
    by (symmetry; apply Z.div_unique with 1; lia).
  lia.
Qed.

Lemma getitem_Raise {A} (a : list A) (i : Z) (e : exn) :
  getitem a i = Raise e -> e = IndexError.
Proof.
  unfold getitem.
  destruct (_ <? 0); [intros H; inversion H; reflexivity |].
  destruct (a !! _); intros H; inversion H; reflexivity.
Qed.

Lemma npmin_nonempty (l : list npfloat) :
  l <> [] -> exists m, npmin l = Ok m.
Proof. destruct l; [contradiction | eexists; reflexivity]. Qed.

Section CorrelatorProperties.

Variable fill_magseries_gaps :
  list npfloat -> list npfloat -> list npfloat -> lcopts ->
  result (option interpolated).
Variable npmedian : list npfloat -> npfloat.
Variables (times mags errs : list npfloat) (opts : lcopts).
Variable ip : interpolated.
Hypothesis resampled : fill_magseries_gaps times mags errs opts = Ok (Some ip).

Local Abbreviation correlator maxlags :=
  (autocorr_magseries fill_magseries_gaps npmedian times mags errs
                      maxlags Func3 opts).

(** With the default estimator the ACF has one entry per sample, and
    the lags are those the lag count asks for. *)
Lemma autocorr_magseries_default (maxlags : option Z) (lagvals : list Z) :
  lagvals = (if truthy_int maxlags then nparange 0 (default 0 maxlags)
             else nparange 0 (Z.of_nat (length (itimes ip)))) ->
  lagvals <> [] -> imags ip <> [] -> itimes ip <> [] ->
  exists r, correlator maxlags = Ok r
            /\ interp r = ip
            /\ lags r = lagvals
            /\ length (acf r) = length (imags ip).
Proof.
  intros Hlags Hne Hmags Htimes.
  unfold autocorr_magseries. rewrite resampled. cbn [rbind].
  rewrite <- Hlags.
  assert (exists l0, getitem lagvals 0 = Ok l0) as [l0 ->].
  { destruct lagvals; [contradiction | eexists; reflexivity]. }
  cbn [rbind].
  destruct (autocorr_func3_length (imags ip) l0
              (Z.of_nat (length (imags ip))) fzero
              (fmul f1_483 (npmedian (map fabs (imags ip))))
              Hmags) as (out & -> & Hout).
  cbn [rbind].
  destruct (npmin_nonempty (itimes ip) Htimes) as [m ->]. cbn [rbind].
  eexists. repeat split. exact Hout.
Qed.

Lemma nparange_nonempty (hi : Z) : 1 <= hi -> nparange 0 hi <> [].
Proof.
  intros Hhi Hnil. apply (f_equal length) in Hnil.
  rewrite length_nparange in Hnil. simpl in Hnil. lia.
Qed.

(** C6, as the code has it.  For a gap-filled series of n >= 1 samples:
    a maximum lag count L >= 1 makes the Correlator return the L lags
    0 .. L-1; with no lag count it returns the n lags 0 .. n-1 and an ACF
    of exactly n entries, so the lag sequence and the ACF value sequence
    have equal length. *)
Theorem autocorr_magseries_lengths :
  imags ip <> [] -> length (itimes ip) = length (imags ip) ->
  (forall L, 1 <= L ->
     exists r, autocorr_magseries fill_magseries_gaps npmedian times mags errs
                 (Some L) Func3 opts = Ok r
               /\ lags r = nparange 0 L
               /\ length (lags r) = Z.to_nat L
               /\ last (lags r) = Some (L - 1))
  /\ (exists r, autocorr_magseries fill_magseries_gaps npmedian times mags
                  errs None Func3 opts = Ok r
                /\ lags r = nparange 0 (Z.of_nat (length (imags ip)))
                /\ length (lags r) = length (imags ip)
                /\ length (acf r) = length (imags ip)
                /\ length (lags r) = length (acf r)).
Proof.
  intros Hmags Hlen.
  assert (Htimes : itimes ip <> []).
  { intros Hnil. rewrite Hnil in Hlen. destruct (imags ip); [contradiction | discriminate]. }
  assert (Hn : 1 <= Z.of_nat (length (imags ip))).
  { destruct (imags ip); [contradiction | simpl; lia]. }
  split.
  - intros L HL.
    destruct (autocorr_magseries_default (Some L) (nparange 0 L))
      as (r & Hr & _ & Hlags & _); auto using nparange_nonempty.
    { simpl. destruct (L =? 0) eqn:E; [lia | reflexivity]. }
    exists r. rewrite Hlags, length_nparange, nparange_last by lia.
    repeat split; [exact Hr | f_equal; lia].
  - destruct (autocorr_magseries_default None
                (nparange 0 (Z.of_nat (length (imags ip)))))
      as (r & Hr & _ & Hlags & Hacf); auto using nparange_nonempty.
    { simpl. rewrite Hlen. reflexivity. }
    exists r. rewrite Hlags, Hacf, length_nparange.
    repeat split; [exact Hr | lia | lia].
Qed.

(** C7, as the code has it.  The Correlator checks neither the length of
    the series nor the lag count against it.  A series of length 0 does
    make it fail (with an IndexError or a ValueError, and no ACF), but for
    a series of n >= 1 samples, n = 1 included, it returns an ACF of n
    entries for every lag count L >= 1, L >= n included, and for none. *)
Theorem autocorr_magseries_no_length_check (maxlags : option Z) :
  length (itimes ip) = length (imags ip) ->
  (imags ip = [] ->
 exists e, autocorr_magseries fill_magseries_gaps npmedian times mags
             errs maxlags Func3 opts = Raise e
           /\ (e = IndexError \/ e = ValueError))
  /\ (imags ip <> [] ->
      (maxlags = None \/ exists L, maxlags = Some L /\ 1 <= L) ->
      exists r, autocorr_magseries fill_magseries_gaps npmedian times mags
                  errs maxlags Func3 opts = Ok r
                /\ length (acf r) = length (imags ip)).
Proof.
  intros Hlen. split.
  - intros Hnil. unfold autocorr_magseries.
    rewrite resampled. cbn [rbind]. rewrite Hnil.
    match goal with
    | |- context [getitem ?l 0] => destruct (getitem l 0) eqn:E
    end; cbn [rbind _autocorr_func3 npcorrelate_full].
    + eexists. split; [reflexivity | right; reflexivity].
    + apply getitem_Raise in E as ->.
      eexists. split; [reflexivity | left; reflexivity].
  - intros Hmags Hlags.
    assert (Htimes : itimes ip <> []).
    { intros Hnil. rewrite Hnil in Hlen. destruct (imags ip); [contradiction | discriminate]. }
    assert (Hn : 1 <= Z.of_nat (length (imags ip))).
    { destruct (imags ip); [contradiction | simpl; lia]. }
    destruct Hlags as [-> | (L & -> & HL)].
    + destruct (autocorr_magseries_default None
                  (nparange 0 (Z.of_nat (length (imags ip)))))
        as (r & Hr & _ & _ & Hacf); auto using nparange_nonempty.
      { simpl. rewrite Hlen. reflexivity. }
      exists r. split; assumption.
    + destruct (autocorr_magseries_default (Some L) (nparange 0 L))
        as (r & Hr & _ & _ & Hacf); auto using nparange_nonempty.
      { simpl. destruct (L =? 0) eqn:E; [lia | reflexivity]. }
      exists r. split; assumption.
Qed.

End CorrelatorProperties.

(** A per-lag estimator is called once for each lag, so its ACF is as long
    as the lag sequence. *)
Lemma autocorr_magseries_per_lag fill_magseries_gaps npmedian
    (times mags errs : list npfloat) (maxlags : option Z) (f : estimator_fn)
    (opts : lcopts) (r : acfresult) :
  autocorr_magseries fill_magseries_gaps npmedian times mags errs
                     maxlags (Func f) opts = Ok r ->
  length (acf r) = length (lags r).
Proof.
  unfold autocorr_magseries.
  destruct (fill_magseries_gaps times mags errs opts) as [[ip|]|];
    try discriminate.
  cbn [rbind].
  destruct (mapM _ _) as [autocorr|] eqn:E; [| discriminate].
  cbn [rbind]. destruct (npmin (itimes ip)); [| discriminate].
  cbn [rbind]. intros H; inversion H. cbn [acf lags].
  exact (length_mapM _ _ _ E).
Qed.

(** When the resampler returns nothing, the call ends in a NameError. *)
Lemma autocorr_magseries_not_interpolated fill_magseries_gaps npmedian
    (times mags errs : list npfloat) (maxlags : option Z) (func : estimator)
    (opts : lcopts) :
  fill_magseries_gaps times mags errs opts = Ok None ->
  autocorr_magseries fill_magseries_gaps npmedian times mags errs
                     maxlags func opts = Raise NameError.
Proof. intros H. unfold autocorr_magseries. rewrite H. reflexivity. Qed.

(** The two per-lag estimators at lag 1 of the series 1, 2, 3, 4, with
    [magmed = 0.0] and [magstd = 1.0]: the products 2*3 and 3*4 over 3, and
    the products 1*2, 2*3 and 3*4 over 3, over the mean square 14/4. *)
Example autocorr_func1_lag1 :
  _autocorr_func1 (map of_int [1; 2; 3; 4]) 1 4 fzero fone
  = Ok (fmul (fdiv fone (of_int 3)) (of_int 18)).
Proof. vm_compute. reflexivity. Qed.

Example autocorr_func2_lag1 :
  _autocorr_func2 (map of_int [1; 2; 3; 4]) 1 4 fzero fone
  = Ok (fdiv (fdiv (of_int 20) (of_int 3)) (fdiv (of_int 14) (of_int 4))).
Proof. vm_compute. reflexivity. Qed.

(** ** The peak extractor *)

Lemma getitem_in_range {A} (a : list A) (i : Z) :
  0 <= i < Z.of_nat (length a) ->
  exists x, getitem a i = Ok x /\ a !! Z.to_nat i = Some x.
Proof.
  intros Hi. unfold getitem.
  destruct (i <? 0) eqn:E1; [lia |]. rewrite E1.
  destruct (a !! Z.to_nat i) as [x|] eqn:E2.
  - exists x. split; reflexivity.
  - apply lookup_ge_None in E2. lia.
Qed.

Lemma getitem_Ok_range {A} (a : list A) (i : Z) (x : A) :
  0 <= i -> getitem a i = Ok x -> a !! Z.to_nat i = Some x.
Proof.
  intros Hi. unfold getitem.
  destruct (i <? 0) eqn:E1; [lia |]. rewrite E1.
  destruct (a !! Z.to_nat i); intros H; inversion H. reflexivity.
Qed.

Lemma getitem_first {A} (a : list A) :
  a <> [] -> exists x, getitem a 0 = Ok x /\ a !! 0%nat = Some x.
Proof. destruct a as [|x a]; [contradiction |]. exists x. split; reflexivity. Qed.

Lemma getitem_last {A} (a : list A) :
  a <> [] -> exists x, getitem a (-1) = Ok x /\ last a = Some x.
Proof.
  intros Hne. unfold getitem. simpl.
  assert (Hlen : (0 < length a)%nat) by (destruct a; [contradiction | simpl; lia]).
  destruct (Z.of_nat (length a) + -1 <? 0) eqn:E; [lia |].
  rewrite last_lookup.
  replace (Z.to_nat (Z.of_nat (length a) + -1)) with (pred (length a)) by lia.
  destruct (a !! pred (length a)) as [x|] eqn:E2.
  - exists x. split; reflexivity.
  - apply lookup_ge_None in E2. lia.
Qed.

Lemma fancy_index_in_range {A} (a : list A) (idx : list Z) :
  Forall (fun i => 0 <= i < Z.of_nat (length a)) idx ->
  exists out, fancy_index a idx = Ok out.
Proof.
  unfold fancy_index. induction 1 as [|i idx Hi _ [out IH]]; simpl.
  - eexists; reflexivity.
  - destruct (getitem_in_range a i Hi) as (x & -> & _). cbn [rbind].
    rewrite IH. eexists; reflexivity.
Qed.

(** *** The extremum search *)

Lemma nonzero_in_range (mask : list bool) :
  Forall (fun i => 0 <= i < Z.of_nat (length mask)) (nonzero mask).
Proof.
  unfold nonzero. apply Forall_forall. intros i Hi.
  apply list_elem_of_In, filter_In in Hi as [Hi _].
  unfold nparange in Hi. apply in_map_iff in Hi as (k & <- & Hk).
  apply in_seq in Hk. lia.
Qed.

Lemma boolrelextrema_Ok (cmp : npfloat -> npfloat -> bool)
    (data : list npfloat) (order : Z) (mask : list bool) :
  boolrelextrema cmp data order = Ok mask ->
  1 <= order /\ length mask = length data.
Proof.
  unfold boolrelextrema. destruct (order <? 1) eqn:E; [discriminate |].
  intros H. inversion H. rewrite length_map, length_nparange. lia.
Qed.

Lemma argrelmax_in_range (data : list npfloat) (order : Z) (idx : list Z) :
  argrelmax data order = Ok idx ->
  1 <= order /\ Forall (fun i => 0 <= i < Z.of_nat (length data)) idx.
Proof.
  unfold argrelmax.
  destruct (boolrelextrema fgt data order) as [mask|] eqn:E; [| discriminate].
  apply boolrelextrema_Ok in E as [Ho Hlen]. intros H; inversion H.
  split; [exact Ho |]. rewrite <- Hlen. apply nonzero_in_range.
Qed.

Lemma argrelmin_in_range (data : list npfloat) (order : Z) (idx : list Z) :
  argrelmin data order = Ok idx ->
  1 <= order /\ Forall (fun i => 0 <= i < Z.of_nat (length data)) idx.
Proof.
  unfold argrelmin.
  destruct (boolrelextrema flt data order) as [mask|] eqn:E; [| discriminate].
  apply boolrelextrema_Ok in E as [Ho Hlen]. intros H; inversion H.
  split; [exact Ho |]. rewrite <- Hlen. apply nonzero_in_range.
Qed.

Lemma argrelmin_total (data : list npfloat) (order : Z) :
  1 <= order -> exists idx, argrelmin data order = Ok idx.
Proof.
  intros Ho. unfold argrelmin, boolrelextrema.
  destruct (order <? 1) eqn:E; [lia |]. eexists; reflexivity.
Qed.

Lemma sublist_forall {A} (P : A -> Prop) (l1 l2 : list A) :
  l1 `sublist_of` l2 -> Forall P l2 -> Forall P l1.
Proof.
  induction 1 as [|x l1 l2 _ IH|x l1 l2 _ IH]; intros HF.
  - constructor.
  - inversion HF; subst. constructor; [assumption | apply IH; assumption].
  - inversion HF; subst. apply IH; assumption.
Qed.

Lemma sublist_sorted {A} (R : A -> A -> Prop) (l1 l2 : list A) :
  l1 `sublist_of` l2 -> StronglySorted R l2 -> StronglySorted R l1.
Proof.
  induction 1 as [|x l1 l2 Hsub IH|x l1 l2 _ IH]; intros HS.
  - constructor.
  - inversion HS; subst. constructor; [apply IH; assumption |].
    eapply sublist_forall; eassumption.
  - inversion HS; subst. apply IH; assumption.
Qed.

Lemma filter_sublist_of {A} (f : A -> bool) (l : list A) :
  List.filter f l `sublist_of` l.
Proof.
  induction l as [|x l IH]; simpl; [constructor |].
  destruct (f x); constructor; exact IH.
Qed.

Lemma nparange_sorted (lo hi : Z) : StronglySorted Z.lt (nparange lo hi).
Proof.
  unfold nparange. generalize (Z.to_nat (hi - lo)) as n. intros n.
  assert (H : forall start, StronglySorted Z.lt
                (map (fun k => lo + Z.of_nat k) (seq start n))).
  { induction n as [|n IH]; intros start; simpl; constructor.
    - apply IH.
    - apply Forall_forall. intros y Hy.
      apply list_elem_of_In, in_map_iff in Hy as (k & <- & Hk).
      apply in_seq in Hk. lia. }
  apply H.
Qed.

(** The search returns its indices in increasing order. *)
Lemma argrelmax_sorted (data : list npfloat) (order : Z) (idx : list Z) :
  argrelmax data order = Ok idx -> StronglySorted Z.lt idx.
Proof.
  unfold argrelmax.
  destruct (boolrelextrema fgt data order) as [mask|]; [| discriminate].
  intros H; inversion H. unfold nonzero.
  eapply sublist_sorted; [apply filter_sublist_of | apply nparange_sorted].
Qed.

(** *** The loop over the maxima *)

Lemma peak_loop_spec (lags : list Z) (acf : list npfloat) (mins : list Z)
    (todo : list Z) :
  forall (peakind : nat) (arr : peakarrays),
    (peakind + length todo <= length (heights arr))%nat ->
    (peakind + length todo <= length (peaklags arr))%nat ->
    (peakind + length todo <= length (indices arr))%nat ->
    peak_loop lags acf mins peakind todo arr
    = do items <- mapM (peak_item lags acf mins) todo;
      Ok {| heights := take peakind (heights arr) ++ map fst items
                       ++ drop (peakind + length todo) (heights arr);
            peaklags := take peakind (peaklags arr) ++ map snd items
                        ++ drop (peakind + length todo) (peaklags arr);
            indices := take peakind (indices arr)
                       ++ map Z.of_nat (seq peakind (length todo))
                       ++ drop (peakind + length todo) (indices arr) |}.
Proof.
  induction todo as [|mxi rest IH]; intros peakind arr Hh Hl Hi.
  - simpl. rewrite Nat.add_0_r, !take_drop. destruct arr; reflexivity.
  - cbn [peak_loop mapM]. unfold peak_item at 1.
    destruct (relpeakheight acf mins mxi) as [h|e]; [| reflexivity].
    cbn [rbind].
    destruct (getitem lags mxi) as [lag|e]; [| reflexivity].
    cbn [rbind]. simpl in Hh, Hl, Hi.
    rewrite IH by (cbn [heights peaklags indices]; rewrite length_insert; lia).
    destruct (mapM (peak_item lags acf mins) rest) as [items|e];
      [| reflexivity].
    cbn [rbind heights peaklags indices map fst snd seq].
    replace (peakind + length (mxi :: rest))%nat
      with (S peakind + length rest)%nat by (simpl; lia).
    cbn [length].
    f_equal. f_equal.
    + rewrite (take_S_r _ _ h) by (apply list_lookup_insert_eq; lia).
      rewrite take_insert_ge by lia. rewrite drop_insert_lt by lia.
      rewrite <- app_assoc. reflexivity.
    + rewrite (take_S_r _ _ lag) by (apply list_lookup_insert_eq; lia).
      rewrite take_insert_ge by lia. rewrite drop_insert_lt by lia.
      rewrite <- app_assoc. reflexivity.
    + rewrite (take_S_r _ _ (Z.of_nat peakind))
        by (apply list_lookup_insert_eq; lia).
      rewrite take_insert_ge by lia. rewrite drop_insert_lt by lia.
      rewrite <- app_assoc. reflexivity.
Qed.

(** [_get_acf_peakheights] once the two searches and the four index
    lookups have succeeded: the loop, then the choice. *)
Lemma get_acf_peakheights_spec (lags : list Z) (acf : list npfloat)
    (npeaks searchinterval : Z) (maxs mins : list Z)
    (maxacfs minacfs : list npfloat) (maxlags minlags : list Z) :
  argrelmax acf searchinterval = Ok maxs ->
  fancy_index acf maxs = Ok maxacfs ->
  fancy_index lags maxs = Ok maxlags ->
  argrelmin acf searchinterval = Ok mins ->
  fancy_index acf mins = Ok minacfs ->
  fancy_index lags mins = Ok minlags ->
  0 <= npeaks ->
  _get_acf_peakheights lags acf npeaks searchinterval
  = do items <- mapM (peak_item lags acf mins) (take (Z.to_nat npeaks) maxs);
    let arr :=
      {| heights := filled fst fzero (Z.to_nat npeaks) items;
         peaklags := filled snd 0 (Z.to_nat npeaks) items;
         indices := filled Z.of_nat 0 (Z.to_nat npeaks)
                           (seq 0 (length items)) |} in
    do best <- pick_best arr;
    Ok {| maxinds := maxs; maxacfs := maxacfs; maxlags := maxlags;
          mininds := mins; minacfs := minacfs; minlags := minlags;
          relpeakheights := heights arr; relpeaklags := peaklags arr;
          peakindices := indices arr;
          bestlag := best.1.1; bestpeakheight := best.1.2;
          bestpeakindex := best.2 |}.
Proof.
  intros Hmax Hmaxa Hmaxl Hmin Hmina Hminl Hn.
  unfold _get_acf_peakheights.
  rewrite Hmax, Hmin. cbn [rbind]. rewrite Hmaxa, Hmaxl. cbn [rbind].
  rewrite Hmina, Hminl. cbn [rbind].
  unfold npzeros. destruct (npeaks <? 0) eqn:E; [lia |]. cbn [rbind].
  set (n := Z.to_nat npeaks).
  rewrite peak_loop_spec
    by (cbn [heights peaklags indices]; rewrite length_replicate, length_take; lia).
  destruct (mapM (peak_item lags acf mins) (take n maxs)) as [items|e] eqn:Eit;
    [| reflexivity].
  cbn [rbind heights peaklags indices].
  apply length_mapM in Eit. rewrite <- Eit.
  rewrite !take_0, !drop_replicate. cbn [app Nat.add].
  unfold filled. rewrite length_seq.
  match goal with
  | |- context [pick_best ?a] => destruct (pick_best a) as [[[l h] i]|e]
  end;
    reflexivity.
Qed.


Lemma filter_existsb_nonempty {A} (f : A -> bool) (l : list A) :
  existsb f l = true -> List.filter f l <> [].
Proof.
  intros H Hnil. apply existsb_exists in H as (x & Hx & Hfx).
  assert (Hin : In x (List.filter f l)) by (apply filter_In; split; assumption).
  rewrite Hnil in Hin. exact Hin.
Qed.

Lemma filter_in_range (f : Z -> bool) (l : list Z) (n : Z) :
  Forall (fun i => 0 <= i < n) l -> Forall (fun i => 0 <= i < n) (List.filter f l).
Proof.
  rewrite !Forall_forall. intros H x Hx.
  apply H. apply list_elem_of_In. apply list_elem_of_In, filter_In in Hx as [Hx _].
  exact Hx.
Qed.

(** A maximum inside the array with a minimum on either side has a
    relative height. *)
Lemma relpeakheight_bracketed (acf : list npfloat) (mins : list Z) (mxi : Z) :
  Forall (fun i => 0 <= i < Z.of_nat (length acf)) mins ->
  0 <= mxi < Z.of_nat (length acf) ->
  bracketed mins mxi = true ->
  exists h, relpeakheight acf mins mxi = Ok h.
Proof.
  intros Hmins Hmxi Hbr. unfold bracketed in Hbr.
  apply andb_true_iff in Hbr as [Hl Hr].
  apply filter_existsb_nonempty in Hl, Hr.
  unfold relpeakheight.
  destruct (getitem_last _ Hl) as (li & -> & Hli).
  destruct (getitem_first _ Hr) as (ri & -> & Hri).
  cbn [rbind].
  assert (Hlr : 0 <= li < Z.of_nat (length acf)).
  { apply last_Some_elem_of in Hli.
    pose proof (filter_in_range (fun m => m <? mxi) mins _ Hmins) as HF.
    rewrite Forall_forall in HF. exact (HF _ Hli). }
  assert (Hrr : 0 <= ri < Z.of_nat (length acf)).
  { apply list_elem_of_lookup_2 in Hri.
    pose proof (filter_in_range (fun m => mxi <? m) mins _ Hmins) as HF.
    rewrite Forall_forall in HF. exact (HF _ Hri). }
  destruct (getitem_in_range acf mxi Hmxi) as (t & -> & _).
  destruct (getitem_in_range acf li Hlr) as (a & -> & _).
  destruct (getitem_in_range acf ri Hrr) as (b & -> & _).
  cbn [rbind]. eexists; reflexivity.
Qed.

Lemma peak_item_bracketed (lags : list Z) (acf : list npfloat)
    (mins : list Z) (mxi : Z) :
  Forall (fun i => 0 <= i < Z.of_nat (length acf)) mins ->
  (length acf <= length lags)%nat ->
  0 <= mxi < Z.of_nat (length acf) ->
  bracketed mins mxi = true ->
  exists h lag, relpeakheight acf mins mxi = Ok h
                /\ getitem lags mxi = Ok lag
                /\ peak_item lags acf mins mxi = Ok (h, lag).
Proof.
  intros Hmins Hlen Hmxi Hbr.
  destruct (relpeakheight_bracketed acf mins mxi Hmins Hmxi Hbr) as [h Hh].
  destruct (getitem_in_range lags mxi) as (lag & Hlag & _); [lia |].
  exists h, lag. unfold peak_item. rewrite Hh, Hlag. repeat split.
Qed.

Lemma peak_items_bracketed (lags : list Z) (acf : list npfloat)
    (mins : list Z) (todo : list Z) :
  Forall (fun i => 0 <= i < Z.of_nat (length acf)) mins ->
  (length acf <= length lags)%nat ->
  Forall (fun i => 0 <= i < Z.of_nat (length acf)) todo ->
  forallb (bracketed mins) todo = true ->
  exists items, mapM (peak_item lags acf mins) todo = Ok items.
Proof.
  intros Hmins Hlen Htodo. induction Htodo as [|mxi todo Hmxi _ IH]; simpl.
  - intros _. eexists; reflexivity.
  - intros Hbr. apply andb_true_iff in Hbr as [Hb Hrest].
    destruct (peak_item_bracketed lags acf mins mxi Hmins Hlen Hmxi Hb)
      as (h & lag & _ & _ & ->).
    destruct (IH Hrest) as [items ->]. cbn [rbind]. eexists; reflexivity.
Qed.

Lemma in_range_weaken (idx : list Z) (n m : nat) :
  (n <= m)%nat ->
  Forall (fun i => 0 <= i < Z.of_nat n) idx ->
  Forall (fun i => 0 <= i < Z.of_nat m) idx.
Proof.
  intros Hnm H. eapply Forall_impl; [exact H |]. intros i Hi. simpl in Hi. lia.
Qed.

(** The choice reads the first two positions of the arrays only. *)
Lemma pick_best_first_two (h0 h1 : npfloat) (hs : list npfloat)
    (l0 l1 : Z) (ls : list Z) (i0 i1 : Z) (js : list Z) :
  pick_best {| heights := h0 :: h1 :: hs; peaklags := l0 :: l1 :: ls;
               indices := i0 :: i1 :: js |}
  = Ok (if fgt h0 h1 then (l0, h0, i0) else (l1, h1, i1)).
Proof.
  unfold pick_best. cbn [heights peaklags indices].
  change (getitem (h0 :: h1 :: hs) 0) with (Ok h0).
  change (getitem (h0 :: h1 :: hs) 1) with (Ok h1).
  cbn [rbind]. destruct (fgt h0 h1); reflexivity.
Qed.

(** *** What a call went through, and how it fails *)

(** Everything a successful call went through. *)
Lemma get_acf_peakheights_Ok_full (lags : list Z) (acf : list npfloat)
    (npeaks searchinterval : Z) (r : peakresult) :
  _get_acf_peakheights lags acf npeaks searchinterval = Ok r ->
  exists items,
    0 <= npeaks
    /\ argrelmax acf searchinterval = Ok (maxinds r)
    /\ fancy_index acf (maxinds r) = Ok (maxacfs r)
    /\ fancy_index lags (maxinds r) = Ok (maxlags r)
    /\ argrelmin acf searchinterval = Ok (mininds r)
    /\ fancy_index acf (mininds r) = Ok (minacfs r)
    /\ fancy_index lags (mininds r) = Ok (minlags r)
    /\ mapM (peak_item lags acf (mininds r))
            (take (Z.to_nat npeaks) (maxinds r)) = Ok items
    /\ relpeakheights r = filled fst fzero (Z.to_nat npeaks) items
    /\ relpeaklags r = filled snd 0 (Z.to_nat npeaks) items
    /\ peakindices r
       = filled Z.of_nat 0 (Z.to_nat npeaks) (seq 0 (length items))
    /\ pick_best {| heights := relpeakheights r;
                    peaklags := relpeaklags r;
                    indices := peakindices r |}
       = Ok (bestlag r, bestpeakheight r, bestpeakindex r).
Proof.
  intros H. pose proof H as H0. unfold _get_acf_peakheights in H0.
  destruct (argrelmax acf searchinterval) as [maxs|] eqn:Hmax;
    [| discriminate].
  cbn [rbind] in H0.
  destruct (fancy_index acf maxs) as [mxa|] eqn:Hmaxa; [| discriminate].
  cbn [rbind] in H0.
  destruct (fancy_index lags maxs) as [mxl|] eqn:Hmaxl; [| discriminate].
  cbn [rbind] in H0.
  destruct (argrelmin acf searchinterval) as [mins|] eqn:Hmin;
    [| discriminate].
  cbn [rbind] in H0.
  destruct (fancy_index acf mins) as [mna|] eqn:Hmina; [| discriminate].
  cbn [rbind] in H0.
  destruct (fancy_index lags mins) as [mnl|] eqn:Hminl; [| discriminate].
  cbn [rbind] in H0.
  unfold npzeros in H0.
  destruct (npeaks <? 0) eqn:En; [discriminate |]. clear H0.
  assert (Hn : 0 <= npeaks) by lia.
  rewrite (get_acf_peakheights_spec lags acf npeaks searchinterval
             maxs mins mxa mna mxl mnl) in H
    by assumption.
  destruct (mapM (peak_item lags acf mins) (take (Z.to_nat npeaks) maxs))
    as [items|] eqn:Hitems; [| discriminate].
  cbn [rbind] in H. cbv zeta in H.
  destruct (pick_best _) as [[[l h] i]|] eqn:Hbest; [| discriminate].
  cbn [rbind] in H. inversion H; subst r; clear H.
  cbn [maxinds mininds relpeakheights relpeaklags peakindices bestlag
       bestpeakheight bestpeakindex maxacfs maxlags minacfs minlags fst snd].
  exists items. repeat split; assumption.
Qed.

(** The part of it the period refiner needs. *)
Lemma get_acf_peakheights_Ok (lags : list Z) (acf : list npfloat)
    (npeaks searchinterval : Z) (r : peakresult) :
  _get_acf_peakheights lags acf npeaks searchinterval = Ok r ->
  exists items,
    0 <= npeaks
    /\ argrelmax acf searchinterval = Ok (maxinds r)
    /\ argrelmin acf searchinterval = Ok (mininds r)
    /\ mapM (peak_item lags acf (mininds r))
            (take (Z.to_nat npeaks) (maxinds r)) = Ok items
    /\ relpeakheights r = filled fst fzero (Z.to_nat npeaks) items
    /\ relpeaklags r = filled snd 0 (Z.to_nat npeaks) items
    /\ pick_best {| heights := relpeakheights r;
                    peaklags := relpeaklags r;
                    indices := peakindices r |}
       = Ok (bestlag r, bestpeakheight r, bestpeakindex r).
Proof.
  intros H.
  destruct (get_acf_peakheights_Ok_full _ _ _ _ _ H)
    as (items & Hn & Hmax & _ & _ & Hmin & _ & _ & Hitems & Hh & Hl & _
        & Hbest).
  exists items. repeat split; assumption.
Qed.

Lemma mapM_peak_item_heights (lags : list Z) (acf : list npfloat)
    (mins todo : list Z) (items : list (npfloat * Z)) :
  mapM (peak_item lags acf mins) todo = Ok items ->
  mapM (relpeakheight acf mins) todo = Ok (map fst items).
Proof.
  revert items. induction todo as [|mxi todo IH]; intros items; simpl.
  - intros H; inversion H. reflexivity.
  - unfold peak_item at 1.
    destruct (relpeakheight acf mins mxi) as [h|]; [| discriminate].
    cbn [rbind]. destruct (getitem lags mxi) as [lag|]; [| discriminate].
    cbn [rbind].
    destruct (mapM (peak_item lags acf mins) todo) as [rest|];
      [| discriminate].
    cbn [rbind]. intros H; inversion H. rewrite (IH rest eq_refl).
    reflexivity.
Qed.

Lemma length_filled {A B} (f : A -> B) (zero : B) (n : nat)
    (items : list A) :
  (length items <= n)%nat -> length (filled f zero n items) = n.
Proof.
  intros H. unfold filled.
  rewrite length_app, length_map, length_replicate. lia.
Qed.

Lemma getitem_Ok_length {A} (a : list A) (i : Z) (x : A) :
  0 <= i -> getitem a i = Ok x -> (Z.to_nat i < length a)%nat.
Proof.
  intros Hi H. apply getitem_Ok_range in H; [| exact Hi].
  exact (lookup_lt_Some _ _ _ H).
Qed.

Lemma pick_best_Ok_length (arr : peakarrays) (b : Z * npfloat * Z) :
  pick_best arr = Ok b -> (2 <= length (heights arr))%nat.
Proof.
  unfold pick_best.
  destruct (getitem (heights arr) 0); [| discriminate].
  destruct (getitem (heights arr) 1) as [h1|] eqn:E; [| discriminate].
  intros _. apply getitem_Ok_length in E; [| lia].
  change (Z.to_nat 1) with 1%nat in E. lia.
Qed.

Lemma filter_existsb_empty {A} (f : A -> bool) (l : list A) :
  existsb f l = false -> List.filter f l = [].
Proof.
  induction l as [|x l IH]; simpl; [reflexivity |].
  intros H. apply orb_false_iff in H as [Hx Hl]. rewrite Hx. apply IH, Hl.
Qed.

Lemma relpeakheight_unbracketed (acf : list npfloat) (mins : list Z)
    (mxi : Z) :
  bracketed mins mxi = false -> relpeakheight acf mins mxi = Raise IndexError.
Proof.
  unfold bracketed, relpeakheight. intros H.
  destruct (existsb (fun m => m <? mxi) mins) eqn:El.
  - destruct (getitem_last _ (filter_existsb_nonempty _ _ El))
      as (li & -> & _).
    cbn [rbind]. simpl in H.
    rewrite (filter_existsb_empty _ _ H). reflexivity.
  - rewrite (filter_existsb_empty _ _ El). reflexivity.
Qed.

Lemma peak_item_Raise (lags : list Z) (acf : list npfloat) (mins : list Z)
    (mxi : Z) (e : exn) :
  peak_item lags acf mins mxi = Raise e -> e = IndexError.
Proof.
  unfold peak_item, relpeakheight.
  repeat match goal with
         | |- context [getitem ?a ?i] =>
             let E := fresh "E" in
             destruct (getitem a i) eqn:E;
             [cbn [rbind]
             | apply getitem_Raise in E; subst; cbn [rbind];
               intros H; inversion H; reflexivity]
         end.
  discriminate.
Qed.

Lemma forallb_Exists_false {A} (f : A -> bool) (l : list A) :
  forallb f l = false -> Exists (fun x => f x = false) l.
Proof.
  induction l as [|x l IH]; simpl; [discriminate |].
  intros H. apply andb_false_iff in H as [Hx | Hl].
  - apply Exists_cons_hd. exact Hx.
  - apply Exists_cons_tl. apply IH, Hl.
Qed.

Lemma mapM_Raise {A B} (f : A -> result B) (E : exn) (l : list A) :
  (forall x e, f x = Raise e -> e = E) ->
  Exists (fun x => f x = Raise E) l -> mapM f l = Raise E.
Proof.
  intros Hall. induction 1 as [x l Hx | x l _ IH]; simpl.
  - rewrite Hx. reflexivity.
  - destruct (f x) as [y|e] eqn:Efx; cbn [rbind].
    + rewrite IH. reflexivity.
    + rewrite (Hall _ _ Efx). reflexivity.
Qed.

(** The front of the arrays once the loop has run, for at least two
    places. *)
Lemma filled_front {A B} (f : A -> B) (zero : B) (n : nat)
    (items : list A) :
  (length items <= S (S n))%nat ->
  exists tl,
    filled f zero (S (S n)) items
    = match items with
      | [] => zero :: zero :: tl
      | [a] => f a :: zero :: tl
      | a :: b :: _ => f a :: f b :: tl
      end.
Proof.
  intros Hlen. unfold filled.
  destruct items as [|a [|b rest]]; simpl; eexists; reflexivity.
Qed.

Lemma pick_best_cases (h0 h1 : npfloat) (hs : list npfloat)
    (l0 l1 : Z) (ls : list Z) (i0 i1 : Z) (js : list Z)
    (bl : Z) (bh : npfloat) (bi : Z) :
  pick_best {| heights := h0 :: h1 :: hs; peaklags := l0 :: l1 :: ls;
               indices := i0 :: i1 :: js |} = Ok (bl, bh, bi) ->
  bh = (if fgt h0 h1 then h0 else h1)
  /\ bl = (if fgt h0 h1 then l0 else l1)
  /\ bi = (if fgt h0 h1 then i0 else i1).
Proof.
  rewrite pick_best_first_two.
  destruct (fgt h0 h1); intros H; inversion H; repeat split.
Qed.

Lemma mapM_peak_item_lags (lags : list Z) (acf : list npfloat)
    (mins todo : list Z) (items : list (npfloat * Z)) :
  mapM (peak_item lags acf mins) todo = Ok items ->
  fancy_index lags todo = Ok (map snd items).
Proof.
  unfold fancy_index. revert items.
  induction todo as [|mxi todo IH]; intros items; simpl.
  - intros H; inversion H. reflexivity.
  - unfold peak_item at 1.
    destruct (relpeakheight acf mins mxi) as [h|]; [| discriminate].
    cbn [rbind]. destruct (getitem lags mxi) as [lag|]; [| discriminate].
    cbn [rbind].
    destruct (mapM (peak_item lags acf mins) todo) as [rest|];
      [| discriminate].
    cbn [rbind]. intros H; inversion H. rewrite (IH rest eq_refl).
    reflexivity.
Qed.

Lemma peak_item_Ok (lags : list Z) (acf : list npfloat) (mins : list Z)
    (mxi : Z) (h : npfloat) (l : Z) :
  peak_item lags acf mins mxi = Ok (h, l) ->
  relpeakheight acf mins mxi = Ok h /\ getitem lags mxi = Ok l.
Proof.
  unfold peak_item.
  destruct (relpeakheight acf mins mxi) as [h'|]; [| discriminate].
  cbn [rbind]. destruct (getitem lags mxi) as [l'|]; [| discriminate].
  cbn [rbind]. intros H; inversion H. split; reflexivity.
Qed.

(** Indexing with an index beyond the end of the array is an
    IndexError. *)
Lemma fancy_index_beyond {A} (a : list A) (idx : list Z) :
  Forall (fun i => 0 <= i) idx ->
  Exists (fun i => Z.of_nat (length a) <= i) idx ->
  fancy_index a idx = Raise IndexError.
Proof.
  intros Hpos Hex. unfold fancy_index.
  apply (mapM_Raise _ IndexError).
  - intros x e. apply getitem_Raise.
  - assert (Hboth : Exists (fun i => 0 <= i /\ Z.of_nat (length a) <= i) idx).
    { apply Exists_exists in Hex as (i & Hi & Hle).
      apply Exists_exists. exists i. split; [exact Hi |].
      rewrite Forall_forall in Hpos. specialize (Hpos _ Hi). lia. }
    eapply Exists_impl; [exact Hboth |]. intros i [Hi0 Hi]. simpl.
    unfold getitem. destruct (i <? 0) eqn:E; [lia |]. rewrite E.
    destruct (a !! Z.to_nat i) eqn:El; [| reflexivity].
    apply lookup_lt_Some in El. lia.
Qed.

Lemma in_range_nonneg (idx : list Z) (n : nat) :
  Forall (fun i => 0 <= i < Z.of_nat n) idx -> Forall (fun i => 0 <= i) idx.
Proof.
  intros H. eapply Forall_impl; [exact H |]. intros i Hi. simpl in Hi. lia.
Qed.

(** ** The choice of the best peak *)

(** C10, as the code has it.  When the search finds no local maximum and
    [npeaks] is at least 2, what [_get_acf_peakheights] does depends on
    the lags it was given.  With lags at least as long as the ACF it
    returns normally: every relative peak height is still the 0 the
    arrays were created with, the comparison of the first two is false,
    and the second-peak branch yields best lag 0 and best peak height
    0.0.  With lags that end before one of the local minima of the ACF it
    ends in an IndexError instead, when the lags of the minima are
    looked up. *)
Theorem peakheights_without_maxima (lags : list Z) (acf : list npfloat)
    (npeaks searchinterval : Z) :
  argrelmax acf searchinterval = Ok [] ->
  2 <= npeaks ->
  exists mins,
    argrelmin acf searchinterval = Ok mins
    /\ ((length acf <= length lags)%nat ->
        exists r,
          _get_acf_peakheights lags acf npeaks searchinterval = Ok r
          /\ maxinds r = []
          /\ relpeakheights r = replicate (Z.to_nat npeaks) fzero
          /\ relpeaklags r = replicate (Z.to_nat npeaks) 0
          /\ (exists h0 h1, getitem (relpeakheights r) 0 = Ok h0
                            /\ getitem (relpeakheights r) 1 = Ok h1
                            /\ fgt h0 h1 = false
                            /\ getitem (relpeaklags r) 1 = Ok (bestlag r)
                            /\ bestpeakheight r = h1)
          /\ bestlag r = 0
          /\ bestpeakheight r = fzero
          /\ bestpeakindex r = 0)
    /\ (Exists (fun i => Z.of_nat (length lags) <= i) mins ->
        _get_acf_peakheights lags acf npeaks searchinterval
        = Raise IndexError).
Proof.
  intros Hmax Hn.
  destruct (argrelmax_in_range _ _ _ Hmax) as [Ho _].
  destruct (argrelmin_total acf searchinterval Ho) as [mins Hmin].
  destruct (argrelmin_in_range _ _ _ Hmin) as [_ Hmins].
  destruct (fancy_index_in_range acf mins Hmins) as [minacfs Hmina].
  exists mins. split; [exact Hmin |]. split.
  - intros Hlen.
    destruct (fancy_index_in_range lags mins
                (in_range_weaken _ _ _ Hlen Hmins)) as [minlags Hminl].
    rewrite (get_acf_peakheights_spec lags acf npeaks searchinterval
               [] mins [] minacfs [] minlags)
      by (try assumption; try reflexivity; lia).
    rewrite take_nil. cbn [mapM rbind]. unfold filled.
    cbn [map length seq app]. rewrite Nat.sub_0_r.
    destruct (Z.to_nat npeaks) as [|[|k]] eqn:En; [lia | lia |].
    eexists. split; [reflexivity |]. cbn.
    repeat split. exists fzero, fzero. repeat split.
  - intros Hbeyond. unfold _get_acf_peakheights.
    rewrite Hmax. cbn [rbind fancy_index mapM]. rewrite Hmin. cbn [rbind].
    fold (fancy_index acf mins). rewrite Hmina. cbn [rbind].
    fold (fancy_index lags mins).
    rewrite (fancy_index_beyond lags mins (in_range_nonneg _ _ Hmins) Hbeyond).
    reflexivity.
Qed.

(** C4.  Whenever [_get_acf_peakheights] returns and the search has
    found at least two maxima, the best peak is decided by the first two
    maxima in lag order alone, [m0 < m1]: both have a relative height,
    and the best lag, height and index are those of the first when its
    relative height is strictly greater than the second's, and those of
    the second otherwise.  The later maxima, however tall, take no part.
    The call does return when [npeaks] is at least 2, the lags are at
    least as long as the ACF and each of the maxima the loop visits has a
    minimum on either side. *)
Theorem best_peak_from_first_two (lags : list Z) (acf : list npfloat)
    (npeaks searchinterval : Z) (m0 m1 : Z) (later : list Z) :
  (forall r,
     _get_acf_peakheights lags acf npeaks searchinterval = Ok r ->
     maxinds r = m0 :: m1 :: later ->
     exists h0 h1 l0 l1,
       m0 < m1
       /\ relpeakheight acf (mininds r) m0 = Ok h0
       /\ relpeakheight acf (mininds r) m1 = Ok h1
       /\ getitem lags m0 = Ok l0
       /\ getitem lags m1 = Ok l1
       /\ (bestlag r, bestpeakheight r, bestpeakindex r)
          = (if fgt h0 h1 then (l0, h0, 0) else (l1, h1, 1)))
  /\ (forall mins,
        argrelmax acf searchinterval = Ok (m0 :: m1 :: later) ->
        argrelmin acf searchinterval = Ok mins ->
        forallb (bracketed mins)
                (take (Z.to_nat npeaks) (m0 :: m1 :: later)) = true ->
        2 <= npeaks ->
        (length acf <= length lags)%nat ->
        exists r,
          _get_acf_peakheights lags acf npeaks searchinterval = Ok r
          /\ maxinds r = m0 :: m1 :: later
          /\ mininds r = mins).
Proof.
  split.
  - intros r H Hmaxs.
    destruct (get_acf_peakheights_Ok_full _ _ _ _ _ H)
      as (items & Hn & Hmax & _ & _ & _ & _ & _ & Hitems & Hh & Hl & Hi
          & Hbest).
    pose proof (length_mapM _ _ _ Hitems) as Hlen.
    assert (Hle : (length items <= Z.to_nat npeaks)%nat).
    { rewrite Hlen, length_take. lia. }
    pose proof (pick_best_Ok_length _ _ Hbest) as H2. cbn [heights] in H2.
    rewrite Hh, length_filled in H2 by exact Hle.
    destruct (Z.to_nat npeaks) as [|[|k]] eqn:En; [lia | lia |].
    rewrite Hmaxs in Hitems, Hmax. cbn [take firstn mapM] in Hitems.
    destruct (peak_item lags acf (mininds r) m0) as [[h0 l0]|] eqn:E0;
      [| discriminate].
    destruct (peak_item lags acf (mininds r) m1) as [[h1 l1]|] eqn:E1;
      [| discriminate].
    cbn [rbind] in Hitems.
    destruct (mapM _ (take k later)) as [rest|]; [| discriminate].
    cbn [rbind] in Hitems. inversion Hitems; subst items; clear Hitems.
    apply peak_item_Ok in E0 as [Hh0 Hl0].
    apply peak_item_Ok in E1 as [Hh1 Hl1].
    rewrite Hh, Hl, Hi in Hbest. unfold filled in Hbest.
    cbn [map fst snd length seq app] in Hbest.
    apply pick_best_cases in Hbest as (Hbh & Hbl & Hbi).
    exists h0, h1, l0, l1.
    split.
    { pose proof (argrelmax_sorted _ _ _ Hmax) as Hs.
      inversion Hs as [|? ? _ Hlt]; subst. inversion Hlt; subst.
      assumption. }
    repeat split; try assumption.
    rewrite Hbh, Hbl, Hbi. destruct (fgt h0 h1); reflexivity.
  - intros mins Hmax Hmin Hbr Hn Hlen.
    destruct (argrelmax_in_range _ _ _ Hmax) as [_ Hmaxs].
    destruct (argrelmin_in_range _ _ _ Hmin) as [_ Hmins].
    destruct (fancy_index_in_range acf _ Hmaxs) as [maxacfs Hmaxa].
    destruct (fancy_index_in_range lags _
                (in_range_weaken _ _ _ Hlen Hmaxs)) as [maxlags Hmaxl].
    destruct (fancy_index_in_range acf mins Hmins) as [minacfs Hmina].
    destruct (fancy_index_in_range lags mins
                (in_range_weaken _ _ _ Hlen Hmins)) as [minlags Hminl].
    rewrite (get_acf_peakheights_spec lags acf npeaks searchinterval
               (m0 :: m1 :: later) mins maxacfs minacfs maxlags minlags)
      by (try assumption; lia).
    destruct (peak_items_bracketed lags acf mins
                (take (Z.to_nat npeaks) (m0 :: m1 :: later)) Hmins Hlen)
      as [items Hitems]; [apply Forall_take; exact Hmaxs | exact Hbr |].
    rewrite Hitems. cbn [rbind].
    pose proof (length_mapM _ _ _ Hitems) as Hilen.
    destruct (Z.to_nat npeaks) as [|[|k]] eqn:En; [lia | lia |].
    cbn [take firstn length] in Hilen.
    destruct items as [|[h0 l0] [|[h1 l1] rest]]; try discriminate Hilen.
    unfold filled. cbn [map fst snd length seq app].
    rewrite pick_best_first_two. cbn [rbind].
    eexists. repeat split.
Qed.


(** ** The period refiner *)

(** Indexing the lags [0 .. N-1] returns the indices themselves. *)
Lemma fancy_index_nparange (N : Z) (idx out : list Z) :
  Forall (fun i => 0 <= i) idx ->
  fancy_index (nparange 0 N) idx = Ok out -> out = idx.
Proof.
  unfold fancy_index. intros Hidx. revert out.
  induction Hidx as [|i idx Hi _ IH]; intros out; simpl.
  - intros H; inversion H. reflexivity.
  - destruct (getitem (nparange 0 N) i) as [x|] eqn:Ex; [| discriminate].
    cbn [rbind].
    destruct (mapM (getitem (nparange 0 N)) idx) as [rest|]; [| discriminate].
    cbn [rbind]. intros H; inversion H. f_equal; [| apply IH; reflexivity].
    apply getitem_Ok_range in Ex; [| exact Hi].
    pose proof (lookup_lt_Some _ _ _ Ex) as Hlt.
    rewrite length_nparange in Hlt.
    rewrite nparange_lookup in Ex by exact Hlt. inversion Ex. lia.
Qed.

Lemma autocorr_magseries_Ok_lags fill_magseries_gaps npmedian
    (times mags errs : list npfloat) (maxlags : option Z) (func : estimator)
    (opts : lcopts) (r : acfresult) :
  autocorr_magseries fill_magseries_gaps npmedian times mags errs
                     maxlags func opts = Ok r ->
  exists N, lags r = nparange 0 N.
Proof.
  unfold autocorr_magseries.
  destruct (fill_magseries_gaps times mags errs opts) as [[ip|]|];
    try discriminate.
  cbn [rbind].
  match goal with
  | |- (do autocorr <- ?c; _) = _ -> _ => destruct c as [autocorr|]
  end; [| discriminate].
  cbn [rbind]. destruct (npmin (itimes ip)); [| discriminate].
  cbn [rbind]. intros H; inversion H. cbn [lags].
  destruct (truthy_int maxlags); eexists; reflexivity.
Qed.

Lemma pick_best_lag (arr : peakarrays) (l : Z) (h : npfloat) (i : Z) :
  pick_best arr = Ok (l, h, i) ->
  getitem (peaklags arr) 0 = Ok l \/ getitem (peaklags arr) 1 = Ok l.
Proof.
  unfold pick_best.
  destruct (getitem (heights arr) 0) as [h0|]; [| discriminate].
  destruct (getitem (heights arr) 1) as [h1|]; [| discriminate].
  cbn [rbind]. destruct (fgt h0 h1).
  - destruct (getitem (peaklags arr) 0) as [l'|]; [| discriminate].
    destruct (getitem (indices arr) 0); [| discriminate].
    cbn [rbind]. intros H; inversion H. left; reflexivity.
  - destruct (getitem (peaklags arr) 1) as [l'|]; [| discriminate].
    destruct (getitem (indices arr) 1); [| discriminate].
    cbn [rbind]. intros H; inversion H. right; reflexivity.
Qed.

Lemma filter_above_zeros (b : Z) (n : nat) :
  0 <= b -> List.filter (fun l => b <? l) (replicate n 0) = [].
Proof.
  intros Hb. induction n as [|n IH]; simpl; [reflexivity |].
  destruct (b <? 0) eqn:E; [lia | exact IH].
Qed.

(** [0.0] times a finite number is a zero. *)
Lemma fmul_zero_finite (c : npfloat) :
  isfinite c = true -> exists sign, fmul fzero c = S754_zero sign.
Proof.
  destruct c; try discriminate; intros _; eexists; reflexivity.
Qed.
(** ** The period finder *)

(** The default smoother is handed the window the call was given. *)
Lemma smooth_acf_savgol_window savgol_filter (acf : list npfloat) (z : Z) :
  _smooth_acf_savgol savgol_filter acf (<["windowsize" := PInt z]> ∅)
  = savgol_filter acf (PInt z) (PInt 2).
Proof.
  unfold _smooth_acf_savgol, accepts.
  rewrite bool_decide_eq_true_2.
  2:{ rewrite dom_insert_L, dom_empty_L, (right_id_L ∅ (∪)).
      apply union_subseteq_l. }
  rewrite lookup_insert_eq, lookup_insert_ne by discriminate.
  reflexivity.
Qed.


Section PeriodFinderProperties.

Variable fill_magseries_gaps :
  list npfloat -> list npfloat -> list npfloat -> lcopts ->
  result (option interpolated).
Variable npmedian : list npfloat -> npfloat.
Variable polyfit :
  list npfloat -> list npfloat -> Z ->
  result (list npfloat * list (list npfloat)).
Variable npsqrt : npfloat -> npfloat.

Variables (times mags errs : list npfloat) (maxlags : option Z).
Variables (maxacfpeaks : Z) (opts : lcopts).
Variables (smoothfunc : smoother) (kw : loc).

Local Abbreviation finder smoothacf :=
  (macf_period_find fill_magseries_gaps npmedian polyfit npsqrt
     times mags errs maxlags maxacfpeaks opts smoothacf smoothfunc kw).

Local Abbreviation correlate :=
  (autocorr_magseries fill_magseries_gaps npmedian times mags errs
                      maxlags Func3 opts).

Local Abbreviation fit peakres acfres :=
  (fit_line polyfit npsqrt peakres (cadence (interp acfres))).

(** The ACF the peak extractor is given: what the smoothing function
    returns when smoothing is enabled, the ACF as it is otherwise. *)
Local Abbreviation searched smoothacf w acfres :=
  (if smoothing_enabled smoothacf
   then smoothfunc (acf acfres)
                   (<["windowsize" := smoothacf]> (deref w kw))
   else Ok (acf acfres)).

Lemma deref_with_windowsize (w : world) (v : pyval) :
  deref (with_windowsize w kw v) kw = <["windowsize" := v]> (deref w kw).
Proof.
  unfold deref at 1, with_windowsize. cbn [store].
  rewrite lookup_insert_eq. reflexivity.
Qed.

(** The stages of a run, one after the other. *)
Lemma macf_period_find_stages (smoothacf : pyval) (w : world) :
  finder smoothacf w
  = let w1 := after_smoothing w kw smoothacf in
    match correlate with
    | Raise e => (Raise e, w)
    | Ok acfres =>
        match searched smoothacf w acfres with
        | Raise e => (Raise e, w1)
        | Ok xacf =>
            match half_window smoothacf with
            | Raise e => (Raise e, w1)
            | Ok si =>
                match _get_acf_peakheights (lags acfres) xacf maxacfpeaks
                                           si with
                | Raise e => (Raise e, w1)
                | Ok peakres =>
                    match fit peakres acfres with
                    | Raise e => (Raise e, with_log w1 [FitFailedWarning])
                    | Ok lf =>
                        (Ok (result_dict maxlags maxacfpeaks opts smoothacf
                                         kw acfres xacf peakres lf),
                         with_log w1
                           (alias_lines (fitbestperiod lf)
                              (fmul (of_int (bestlag peakres))
                                    (cadence (interp acfres)))))
                    end
                end
            end
        end
    end.
Proof.
  unfold macf_period_find, bind, lift, after_smoothing.
  destruct (autocorr_magseries _ _ _ _ _ _ _ _) as [acfres|e];
    [| reflexivity].
  destruct (smoothing_enabled smoothacf).
  - unfold dict_update, dict_read.
    fold (with_windowsize w kw smoothacf).
    rewrite deref_with_windowsize.
    destruct (smoothfunc _ _) as [xacf|e]; [| reflexivity].
    destruct (half_window smoothacf) as [si|e]; [| reflexivity].
    destruct (_get_acf_peakheights _ _ _ _) as [peakres|e]; [| reflexivity].
    unfold try_except_reraise, LOGWARNING.
    destruct (fit_line _ _ _ _) as [lf|e]; [| reflexivity].
    unfold alias_lines, with_log, ret.
    destruct (flt _ _); [reflexivity |].
    rewrite app_nil_r. reflexivity.
  - unfold ret.
    destruct (half_window smoothacf) as [si|e]; [| reflexivity].
    destruct (_get_acf_peakheights _ _ _ _) as [peakres|e]; [| reflexivity].
    unfold try_except_reraise, LOGWARNING.
    destruct (fit_line _ _ _ _) as [lf|e]; [| reflexivity].
    unfold alias_lines, with_log, ret.
    destruct (flt _ _); [reflexivity |].
    rewrite app_nil_r. destruct w; reflexivity.
Qed.

(** What a run that returns a dict went through.  Its search interval
    [int(smoothacf/2)] is at least 1: the extremum search refuses a
    smaller one. *)
Lemma macf_period_find_Ok (smoothacf : pyval) (w w' : world) (d : pydict) :
  finder smoothacf w = (Ok d, w') ->
  exists acfres xacf si peakres lf,
    correlate = Ok acfres
    /\ searched smoothacf w acfres = Ok xacf
    /\ half_window smoothacf = Ok si /\ 1 <= si
    /\ _get_acf_peakheights (lags acfres) xacf maxacfpeaks si = Ok peakres
    /\ fit peakres acfres = Ok lf
    /\ d = result_dict maxlags maxacfpeaks opts smoothacf kw
                       acfres xacf peakres lf
    /\ w' = with_log (after_smoothing w kw smoothacf)
               (alias_lines (fitbestperiod lf)
                  (fmul (of_int (bestlag peakres))
                        (cadence (interp acfres)))).
Proof.
  intros H. rewrite macf_period_find_stages in H. cbv zeta in H.
  destruct correlate as [acfres|e]; [| discriminate].
  destruct (searched smoothacf w acfres) as [xacf|e] eqn:Hs;
    [| discriminate].
  destruct (half_window smoothacf) as [si|e] eqn:Hw; [| discriminate].
  destruct (_get_acf_peakheights _ _ _ _) as [peakres|e] eqn:Hp;
    [| discriminate].
  destruct (fit peakres acfres) as [lf|e] eqn:Hf; [| discriminate].
  inversion H; subst.
  exists acfres, xacf, si, peakres, lf.
  destruct (get_acf_peakheights_Ok _ _ _ _ _ Hp) as (_ & _ & Hmax & _).
  destruct (argrelmax_in_range _ _ _ Hmax) as [Hsi _].
  repeat split; assumption.
Qed.

(** C1, as the code has it.  When the line fit raises, the handler logs
    the warning and raises the exception again: the call ends with that
    exception and returns nothing, neither nan fit fields nor the naive
    period. *)
Theorem fit_failure_is_raised (smoothacf : pyval) (w : world)
    (acfres : acfresult) (xacf : list npfloat) (si : Z)
    (peakres : peakresult) (e : exn) :
  autocorr_magseries fill_magseries_gaps npmedian times mags errs
    maxlags Func3 opts = Ok acfres ->
  (if smoothing_enabled smoothacf
   then smoothfunc (acf acfres)
                   (<["windowsize" := smoothacf]> (deref w kw))
   else Ok (acf acfres)) = Ok xacf ->
  half_window smoothacf = Ok si ->
  _get_acf_peakheights (lags acfres) xacf maxacfpeaks si = Ok peakres ->
  polyfit (fit_samples peakres (cadence (interp acfres))).1
          (fit_samples peakres (cadence (interp acfres))).2 1
  = Raise e ->
  macf_period_find fill_magseries_gaps npmedian polyfit npsqrt
    times mags errs maxlags maxacfpeaks opts smoothacf smoothfunc kw w
  = (Raise e,
     with_log (after_smoothing w kw smoothacf) [FitFailedWarning]).
Proof.
  intros Hc Hs Hw Hp Hfit.
  rewrite macf_period_find_stages. cbv zeta.
  rewrite Hc, Hs, Hw, Hp.
  unfold fit_line.
  destruct (fit_samples peakres (cadence (interp acfres))) as [fitx fity].
  cbn [fst snd] in Hfit. rewrite Hfit. reflexivity.
Qed.

(** C3, as the code has it.  With [smoothacf = None] the ACF is left
    unsmoothed, but the search interval [int(smoothacf/2)] cannot be
    computed: once the Correlator has returned, the call ends in a
    TypeError, before the peak extractor runs, and the world is as it
    was. *)
Theorem no_smoothing_is_a_TypeError (w : world) (acfres : acfresult) :
  autocorr_magseries fill_magseries_gaps npmedian times mags errs
    maxlags Func3 opts = Ok acfres ->
  macf_period_find fill_magseries_gaps npmedian polyfit npsqrt
    times mags errs maxlags maxacfpeaks opts PNone smoothfunc kw w
  = (Raise TypeError, w).
Proof.
  intros Hc. unfold macf_period_find, bind, lift.
  rewrite Hc. reflexivity.
Qed.

(** C2, as the code has it.  The dict of a successful run has exactly
    its sixteen entries, and no [aliasSuspected] among them.  That the
    fitted period is smaller than the naive period, which is the best
    lag times the cadence, is reported through the log alone: the alias
    warning is the one line [macf_period_find] itself logs in a
    successful run, and it logs it exactly when the fitted period is
    smaller than the naive period. *)
Theorem alias_is_only_logged (smoothacf : pyval) (w w' : world)
    (d : pydict) :
  macf_period_find fill_magseries_gaps npmedian polyfit npsqrt
    times mags errs maxlags maxacfpeaks opts smoothacf smoothfunc kw w
  = (Ok d, w') ->
  dict_keys d = result_keys
  /\ dict_get "aliasSuspected" d = None
  /\ exists acfres peakres fitted,
       dict_get "acfresults" d = Some (RAcf acfres)
       /\ dict_get "acfpeaks" d = Some (RPeaks peakres)
       /\ dict_get "fitbestperiod" d = Some (RFloat fitted)
       /\ let naive :=
            fmul (of_int (bestlag peakres)) (cadence (interp acfres)) in
          dict_get "naivebestperiod" d = Some (RFloat naive)
          /\ logged w'
             = logged w ++ (if flt fitted naive
                            then [AliasWarning fitted naive] else []).
Proof.
  intros H.
  destruct (macf_period_find_Ok _ _ _ _ H)
    as (acfres & xacf & si & peakres & lf
        & _ & _ & _ & _ & _ & _ & -> & ->).
  split; [reflexivity |]. split; [reflexivity |].
  exists acfres, peakres, (fitbestperiod lf).
  split; [reflexivity |]. split; [reflexivity |]. split; [reflexivity |].
  cbv zeta. split; [reflexivity |].
  unfold with_log, alias_lines, after_smoothing. cbn [logged].
  destruct (smoothing_enabled smoothacf); reflexivity.
Qed.




(** C8, as the code has it.  In a run that returns, the line is fitted
    to these samples: time 0.0 x cadence at index 0, best lag x cadence
    at index 1, then, at the consecutive indices that follow, the lags
    strictly greater than the best lag among the maxima the peak loop
    visited, in increasing order, each times the cadence.  The visited
    maxima are the first [maxacfpeaks] maxima of the search and no
    others: a maximum after them is not fitted, whatever its lag.  (The
    lag of a maximum is its index in the ACF.)  The fit is the
    first-degree [polyfit]; the fitted period is its slope, the first
    coefficient, and the standard error is the square root of the first
    diagonal entry of the covariance matrix. *)
Theorem refined_period_from_line_fit (smoothacf : pyval) (w w' : world)
    (d : pydict) :
  macf_period_find fill_magseries_gaps npmedian polyfit npsqrt
    times mags errs maxlags maxacfpeaks opts smoothacf smoothfunc kw w
  = (Ok d, w') ->
  exists acfres peakres visited coeffs covar slope row0 var0,
    dict_get "acfresults" d = Some (RAcf acfres)
    /\ dict_get "acfpeaks" d = Some (RPeaks peakres)
    /\ visited = take (Z.to_nat maxacfpeaks) (maxinds peakres)
    /\ fancy_index (lags acfres) visited = Ok visited
    /\ StronglySorted Z.lt visited
    /\ let cad := cadence (interp acfres) in
       let later :=
         List.filter (fun l => bestlag peakres <? l) visited in
       let fity :=
         map (fun t => fmul t cad)
             (fzero :: of_int (bestlag peakres) :: map of_int later) in
       let fitx := map of_int (nparange 0 (Z.of_nat (length fity))) in
       StronglySorted Z.lt later
       /\ (isfinite cad = true ->
           exists sign, fity !! 0%nat = Some (S754_zero sign))
       /\ polyfit fitx fity 1 = Ok (coeffs, covar)
       /\ getitem coeffs 0 = Ok slope
       /\ getitem covar 0 = Ok row0
       /\ getitem row0 0 = Ok var0
       /\ dict_get "fitbestperiod" d = Some (RFloat slope)
       /\ dict_get "fitperiodrms" d = Some (RFloat (npsqrt var0)).
Proof.
  intros H.
  destruct (macf_period_find_Ok _ _ _ _ H)
    as (acfres & xacf & si & peakres & lf
        & Hc & _ & _ & _ & Hp & Hf & -> & _).
  destruct (get_acf_peakheights_Ok _ _ _ _ _ Hp)
    as (items & Hn & Hmax & _ & Hitems & _ & Hrl & Hbest).
  set (visited := take (Z.to_nat maxacfpeaks) (maxinds peakres)) in *.
  pose proof (mapM_peak_item_lags _ _ _ _ _ Hitems) as Hlags.
  destruct (autocorr_magseries_Ok_lags _ _ _ _ _ _ _ _ _ Hc) as [N HN].
  destruct (argrelmax_in_range _ _ _ Hmax) as [_ Hrange].
  assert (Hnonneg : Forall (fun i => 0 <= i) visited).
  { subst visited. apply Forall_take.
    eapply Forall_impl; [exact Hrange |]. intros i Hi. simpl in Hi. lia. }
  assert (Hsnd : map snd items = visited).
  { rewrite HN in Hlags. exact (fancy_index_nparange N _ _ Hnonneg Hlags). }
  assert (Hsorted : StronglySorted Z.lt visited).
  { eapply sublist_sorted; [apply sublist_take |].
    exact (argrelmax_sorted _ _ _ Hmax). }
  assert (Hrl' : relpeaklags peakres
                 = visited
                   ++ replicate (Z.to_nat maxacfpeaks - length items) 0).
  { rewrite Hrl. unfold filled. rewrite Hsnd. reflexivity. }
  assert (Hbl : 0 <= bestlag peakres).
  { apply pick_best_lag in Hbest. cbn [peaklags] in Hbest.
    assert (Hin : bestlag peakres ∈ relpeaklags peakres).
    { destruct Hbest as [Hb | Hb];
        apply getitem_Ok_range in Hb; try lia;
        eapply list_elem_of_lookup_2; exact Hb. }
    rewrite Hrl' in Hin. apply elem_of_app in Hin as [Hin | Hin].
    - rewrite Forall_forall in Hnonneg. exact (Hnonneg _ Hin).
    - apply elem_of_replicate in Hin as [-> _]. lia. }
  unfold fit_line, fit_samples in Hf.
  rewrite Hrl', List.filter_app, filter_above_zeros, app_nil_r in Hf
    by exact Hbl.
  cbn [app] in Hf.
  destruct (polyfit _ _ 1) as [[coeffs covar]|] eqn:Hfit; [| discriminate].
  cbn [rbind] in Hf.
  destruct (getitem coeffs 0) as [slope|] eqn:Hslope; [| discriminate].
  cbn [rbind] in Hf.
  destruct (getitem covar 0) as [row0|] eqn:Hrow; [| discriminate].
  cbn [rbind] in Hf.
  destruct (getitem row0 0) as [var0|] eqn:Hvar; [| discriminate].
  cbn [rbind] in Hf. inversion Hf; subst lf; clear Hf.
  exists acfres, peakres, visited, coeffs, covar, slope, row0, var0.
  split; [reflexivity |]. split; [reflexivity |]. split; [reflexivity |].
  split; [rewrite <- Hsnd at 2; exact Hlags |].
  split; [exact Hsorted |].
  cbv zeta. split.
  { eapply sublist_sorted; [apply filter_sublist_of | exact Hsorted]. }
  split.
  { intros Hcad. cbn [map lookup list_lookup].
    destruct (fmul_zero_finite _ Hcad) as [sign ->].
    exists sign. reflexivity. }
  split; [exact Hfit |].
  repeat split; assumption.
Qed.

End PeriodFinderProperties.

(** ** The statements at concrete inputs *)

(** *** Correlator *)

(** C5 in float64.  On six samples near [2^-537] the products of two
    samples underflow: the squares add up to 9 units of [2^-1074], a
    finite number other than 0, but the products one lag apart add up to
    10 units, so the maximum is not the zero-lag entry and the ACF at lag 0
    is 9/10.  On two samples [2^600] the squares overflow: the zero-lag
    correlation is infinite and the ACF at lag 0 is nan. *)
Lemma lag0_is_not_one_in_float64 :
  (tiny6 <> []
   /\ dot tiny6 tiny6 = float_of 9 (-1074)
   /\ finite_nonzero (dot tiny6 tiny6) = true
   /\ (exists full, npcorrelate_full tiny6 tiny6 = Ok full
                    /\ npmax full = Ok (float_of 10 (-1074)))
   /\ (exists rest, _autocorr_func3 tiny6 0 6 fzero fzero
                    = Ok (fdiv (of_int 9) (of_int 10) :: rest))
   /\ fdiv (of_int 9) (of_int 10) <> fone)
  /\ (huge2 <> []
      /\ dot huge2 huge2 = S754_infinity false
      /\ _autocorr_func3 huge2 0 2 fzero fzero = Ok [nan; nan]).
Proof.
  split.
  - split; [discriminate |].
    split; [vm_compute; reflexivity |].
    split; [vm_compute; reflexivity |].
    split; [eexists; split; vm_compute; reflexivity |].
    split; [eexists; vm_compute; reflexivity |].
    vm_compute. discriminate.
  - split; [discriminate |]. split; vm_compute; reflexivity.
Qed.

(** C6 at a series of 5 samples with L = 2: the Correlator returns the 2
    lags 0 and 1, not L + 1 = 3 of them, next to an ACF of 5 values; the
    two sequences differ in length. *)
Lemma correlator_returns_L_lags :
  exists r,
    demo_correlator alternating5 (Some 2) = Ok r
    /\ lags r = [0; 1]
    /\ length (lags r) <> Z.to_nat (2 + 1)
    /\ length (acf r) = 5%nat
    /\ length (acf r) <> Z.to_nat (2 + 1)
    /\ length (lags r) <> length (acf r).
Proof.
  eexists. split; [vm_compute; reflexivity |]. cbn.
  repeat split; try reflexivity; lia.
Qed.

Lemma autocorr_magseries_lengths_witness :
  (exists r, demo_correlator alternating5 (Some 2) = Ok r
             /\ lags r = nparange 0 2
             /\ length (lags r) = Z.to_nat 2
             /\ last (lags r) = Some (2 - 1))
  /\ (exists r, demo_correlator alternating5 None = Ok r
                /\ lags r = nparange 0 5
                /\ length (lags r) = 5%nat
                /\ length (acf r) = 5%nat
                /\ length (lags r) = length (acf r)).
Proof.
  pose proof (autocorr_magseries_lengths
                (resample_uniform fone) median
                (sample_times 5) alternating5 [] no_opts
                {| itimes := sample_times 5; imags := alternating5;
                   ierrs := []; cadence := fone |}
                eq_refl) as H.
  destruct H as [HL Hnone]; [discriminate | reflexivity |].
  split; [apply (HL 2); lia | exact Hnone].
Defined.

(** C7 at a series of length 1 and at L = 5 for a series of length 3: the
    Correlator returns an ACF both times. *)
Lemma correlator_accepts_short_and_overlong :
  (exists r, demo_correlator [of_int 2] None = Ok r
             /\ length (imags (interp r)) = 1%nat
             /\ acf r = [fone])
  /\ (exists r, demo_correlator (map of_int [1; 2; 3]) (Some 5) = Ok r
                /\ length (imags (interp r)) = 3%nat
                /\ lags r = [0; 1; 2; 3; 4]
                /\ acf r = [fone; fdiv (of_int 8) (of_int 14);
                            fdiv (of_int 3) (of_int 14)]).
Proof.
  split; eexists; (split; [vm_compute; reflexivity |]); repeat split.
Qed.

Lemma autocorr_magseries_no_length_check_witness :
  (exists e, demo_correlator [] (Some 3) = Raise e
             /\ (e = IndexError \/ e = ValueError))
  /\ (exists r, demo_correlator [of_int 2] (Some 5) = Ok r
                /\ length (acf r) = 1%nat).
Proof.
  split.
  - apply (autocorr_magseries_no_length_check
             (resample_uniform fone) median
             (sample_times 0) [] [] no_opts
             {| itimes := []; imags := []; ierrs := []; cadence := fone |}
             eq_refl (Some 3) eq_refl).
    reflexivity.
  - apply (autocorr_magseries_no_length_check
             (resample_uniform fone) median
             (sample_times 1) [of_int 2] [] no_opts
             {| itimes := sample_times 1; imags := [of_int 2];
                ierrs := []; cadence := fone |}
             eq_refl (Some 5) eq_refl).
    + discriminate.
    + right. exists 5. split; [reflexivity | lia].
Defined.

(** *** Peak extractor *)

Lemma best_peak_from_first_two_witness :
  exists r h0 h1 l0 l1,
    _get_acf_peakheights (nparange 0 9) three_peaks 10 1 = Ok r
    /\ maxinds r = [2; 4; 6]
    /\ mininds r = [1; 3; 5; 7]
    /\ 2 < 4
    /\ relpeakheight three_peaks (mininds r) 2 = Ok h0
    /\ relpeakheight three_peaks (mininds r) 4 = Ok h1
    /\ getitem (nparange 0 9) 2 = Ok l0
    /\ getitem (nparange 0 9) 4 = Ok l1
    /\ (bestlag r, bestpeakheight r, bestpeakindex r)
       = (if fgt h0 h1 then (l0, h0, 0) else (l1, h1, 1)).
Proof.
  destruct (best_peak_from_first_two (nparange 0 9) three_peaks 10 1
              2 4 [6]) as [Hchoice Hreturns].
  destruct (Hreturns [1; 3; 5; 7]) as (r & Hr & Hmaxs & Hmins).
  - vm_compute. reflexivity.
  - vm_compute. reflexivity.
  - vm_compute. reflexivity.
  - lia.
  - simpl. lia.
  - destruct (Hchoice r Hr Hmaxs) as (h0 & h1 & l0 & l1 & Hall).
    exists r, h0, h1, l0, l1.
    split; [exact Hr |]. split; [exact Hmaxs |]. split; [exact Hmins |].
    exact Hall.
Defined.

(** The tie-break on the two sample ACFs: the first maximum wins when it
    is the higher of the first two, the second when it is not, and the
    tallest maximum, the third, never.  The relative heights are 3.5 or
    1.5, 2.5 and 8.5. *)
Example first_peak_selected :
  exists r, _get_acf_peakheights (nparange 0 9) three_peaks 10 1 = Ok r
            /\ relpeakheights r !! 2%nat = Some (float_of 17 (-1))
            /\ bestlag r = 2 /\ bestpeakheight r = float_of 7 (-1).
Proof.
  eexists. split; [vm_compute; reflexivity |].
  repeat split; vm_compute; reflexivity.
Qed.

Example second_peak_selected :
  exists r, _get_acf_peakheights (nparange 0 9) low_first_peak 10 1 = Ok r
            /\ relpeakheights r !! 2%nat = Some (float_of 17 (-1))
            /\ bestlag r = 4 /\ bestpeakheight r = float_of 5 (-1).
Proof.
  eexists. split; [vm_compute; reflexivity |].
  repeat split; vm_compute; reflexivity.
Qed.

(** C10 with lags shorter than the ACF: the ACF 3, 1, 2 has no local
    maximum and a local minimum at index 1, and with the one lag 0 the
    call ends in an IndexError.  The period finder gets there when it is
    given [maxlags = 1] for a series of three samples. *)
Lemma peakheights_without_maxima_short_lags :
  argrelmax (map of_int [3; 1; 2]) 1 = Ok []
  /\ argrelmin (map of_int [3; 1; 2]) 1 = Ok [1]
  /\ _get_acf_peakheights [0] (map of_int [3; 1; 2]) 2 1 = Raise IndexError
  /\ (exists acfres,
        autocorr_magseries (resample_uniform fone) median
          (sample_times 3) (map of_int [1; -1; 1]) [] (Some 1) Func3 no_opts
        = Ok acfres
        /\ lags acfres = [0]
        /\ length (acf acfres) = 3%nat
        /\ argrelmax (acf acfres) 1 = Ok [])
  /\ (macf_period_find (resample_uniform fone) median polyfit_line fsqrt
        (sample_times 3) (map of_int [1; -1; 1]) [] (Some 1) 2 no_opts
        (PInt 2) smooth_nothing default_smoothfunckwargs fresh_world).1
     = Raise IndexError.
Proof.
  split; [vm_compute; reflexivity |].
  split; [vm_compute; reflexivity |].
  split; [vm_compute; reflexivity |].
  split; [| vm_compute; reflexivity].
  eexists. split; [vm_compute; reflexivity |].
  repeat split; vm_compute; reflexivity.
Qed.

Lemma peakheights_without_maxima_witness :
  exists mins,
    argrelmin (map of_int [3; 2; 1]) 1 = Ok mins
    /\ (exists r,
          _get_acf_peakheights (nparange 0 3) (map of_int [3; 2; 1]) 4 1
          = Ok r
          /\ maxinds r = []
          /\ relpeakheights r = replicate (Z.to_nat 4) fzero
          /\ relpeaklags r = replicate (Z.to_nat 4) 0
          /\ (exists h0 h1, getitem (relpeakheights r) 0 = Ok h0
                            /\ getitem (relpeakheights r) 1 = Ok h1
                            /\ fgt h0 h1 = false
                            /\ getitem (relpeaklags r) 1 = Ok (bestlag r)
                            /\ bestpeakheight r = h1)
          /\ bestlag r = 0
          /\ bestpeakheight r = fzero
          /\ bestpeakindex r = 0)
    /\ (exists mins',
          argrelmin (map of_int [3; 1; 2]) 1 = Ok mins'
          /\ _get_acf_peakheights [0] (map of_int [3; 1; 2]) 4 1
             = Raise IndexError).
Proof.
  destruct (peakheights_without_maxima (nparange 0 3)
              (map of_int [3; 2; 1]) 4 1) as (mins & Hmins & Hret & _).
  { vm_compute. reflexivity. }
  { lia. }
  exists mins. split; [exact Hmins |].
  split; [apply Hret; simpl; lia |].
  destruct (peakheights_without_maxima [0] (map of_int [3; 1; 2]) 4 1)
    as (mins' & Hmins' & _ & Hraise).
  { vm_compute. reflexivity. }
  { lia. }
  exists mins'. split; [exact Hmins' |].
  apply Hraise.
  assert (mins' = [1]) as ->.
  { vm_compute in Hmins'. inversion Hmins'. reflexivity. }
  apply Exists_cons_hd. simpl. lia.
Defined.

(** *** Period finder *)

(** C1 at the series of 5 alternating samples: one maximum is found, the
    fit has two points, the line fit raises ValueError, and so does the
    call, with the warning logged. *)
Lemma fit_failure_is_raised_witness :
  demo_finder alternating5 10 (PInt 2) default_smoothfunckwargs fresh_world
  = (Raise ValueError,
     with_log (with_windowsize fresh_world default_smoothfunckwargs (PInt 2))
              [FitFailedWarning]).
Proof.
  eapply (fit_failure_is_raised
            (resample_uniform fone) median polyfit_line fsqrt
            (sample_times 5) alternating5 [] None 10 no_opts
            smooth_nothing default_smoothfunckwargs (PInt 2) fresh_world).
  - vm_compute. reflexivity.
  - vm_compute. reflexivity.
  - vm_compute. reflexivity.
  - vm_compute. reflexivity.
  - vm_compute. reflexivity.
Defined.

(** C3 at the same series. *)
Lemma no_smoothing_is_a_TypeError_witness :
  demo_finder alternating5 10 PNone default_smoothfunckwargs fresh_world
  = (Raise TypeError, fresh_world).
Proof.
  eapply (no_smoothing_is_a_TypeError
            (resample_uniform fone) median polyfit_line fsqrt
            (sample_times 5) alternating5 [] None 10 no_opts
            smooth_nothing default_smoothfunckwargs fresh_world).
  vm_compute. reflexivity.
Defined.

(** C2 at the series with the uneven tail: the fitted period 2.5 is below
    the naive period 3.0, the warning is logged, and the dict that comes
    back has its sixteen entries, none of them [aliasSuspected]. *)
Lemma result_has_no_alias_field :
  exists d w',
    demo_finder uneven8 3 (PInt 2) default_smoothfunckwargs fresh_world
    = (Ok d, w')
    /\ dict_get "fitbestperiod" d = Some (RFloat (float_of 5 (-1)))
    /\ dict_get "naivebestperiod" d = Some (RFloat (of_int 3))
    /\ flt (float_of 5 (-1)) (of_int 3) = true
    /\ logged w' = [AliasWarning (float_of 5 (-1)) (of_int 3)]
    /\ dict_get "aliasSuspected" d = None
    /\ ~ In "aliasSuspected"%string (dict_keys d)
    /\ dict_keys d
       = ["bestperiod"; "bestlspval"; "nbestpeaks"; "lspvals"; "periods";
          "acf"; "lags"; "method"; "naivebestperiod"; "fitbestperiod";
          "fitperiodrms"; "periodfitcoeffs"; "periodfitcovar"; "kwargs";
          "acfresults"; "acfpeaks"]%string.
Proof.
  eexists _, _. split; [vm_compute; reflexivity |].
  split; [vm_compute; reflexivity |]. split; [vm_compute; reflexivity |].
  split; [vm_compute; reflexivity |]. split; [vm_compute; reflexivity |].
  split; [reflexivity |]. split; [| reflexivity].
  cbn. intros Hin.
  repeat (destruct Hin as [Hin | Hin]; [discriminate Hin |]). exact Hin.
Qed.

Lemma alias_is_only_logged_witness :
  exists d w',
    demo_finder uneven8 3 (PInt 2) default_smoothfunckwargs fresh_world
    = (Ok d, w')
    /\ dict_keys d = result_keys
    /\ dict_get "aliasSuspected" d = None
    /\ exists acfres peakres fitted,
         dict_get "acfresults" d = Some (RAcf acfres)
         /\ dict_get "acfpeaks" d = Some (RPeaks peakres)
         /\ dict_get "fitbestperiod" d = Some (RFloat fitted)
         /\ let naive :=
              fmul (of_int (bestlag peakres)) (cadence (interp acfres)) in
            dict_get "naivebestperiod" d = Some (RFloat naive)
            /\ logged w'
               = logged fresh_world
                 ++ (if flt fitted naive then [AliasWarning fitted naive]
                     else []).
Proof.
  assert (Hrun : exists d w',
             demo_finder uneven8 3 (PInt 2) default_smoothfunckwargs
                         fresh_world = (Ok d, w'))
    by (eexists _, _; vm_compute; reflexivity).
  destruct Hrun as (d & w' & Hrun). exists d, w'.
  split; [exact Hrun |].
  exact (alias_is_only_logged
           (resample_uniform fone) median polyfit_line fsqrt
           (sample_times 8) uneven8 [] None 3 no_opts
           smooth_nothing default_smoothfunckwargs (PInt 2)
           fresh_world w' d Hrun).
Defined.

(** C8 at a series whose ACF has maxima at lags 2, 4 and 7.  With
    [maxacfpeaks = 2] the best lag is 2 and the line is fitted to the
    times 0, 2 and 4 only: the maximum at lag 7 lies beyond the best lag
    but is not among the samples, and the fitted period is 2.  With
    [maxacfpeaks = 3] the time 7 is fitted as well. *)
Lemma later_maximum_is_not_fitted :
  (exists d w' peakres,
     demo_finder uneven10 2 (PInt 2) default_smoothfunckwargs fresh_world
     = (Ok d, w')
     /\ dict_get "acfpeaks" d = Some (RPeaks peakres)
     /\ maxinds peakres = [2; 4; 7]
     /\ bestlag peakres = 2
     /\ fit_samples peakres fone
        = (map of_int [0; 1; 2], map of_int [0; 2; 4])
     /\ dict_get "fitbestperiod" d = Some (RFloat (of_int 2)))
  /\ (exists d w' peakres,
        demo_finder uneven10 3 (PInt 2) default_smoothfunckwargs fresh_world
        = (Ok d, w')
        /\ dict_get "acfpeaks" d = Some (RPeaks peakres)
        /\ maxinds peakres = [2; 4; 7]
        /\ bestlag peakres = 2
        /\ fit_samples peakres fone
           = (map of_int [0; 1; 2; 3], map of_int [0; 2; 4; 7])
        /\ dict_get "fitbestperiod" d
           = Some (RFloat (fdiv (of_int 46) (of_int 20)))).
Proof.
  split; eexists _, _, _; (split; [vm_compute; reflexivity |]);
    repeat split; vm_compute; reflexivity.
Qed.

Lemma refined_period_from_line_fit_witness :
  exists d w',
    demo_finder uneven8 3 (PInt 2) default_smoothfunckwargs fresh_world
    = (Ok d, w')
    /\ exists acfres peakres visited coeffs covar slope row0 var0,
      dict_get "acfresults" d = Some (RAcf acfres)
      /\ dict_get "acfpeaks" d = Some (RPeaks peakres)
      /\ visited = take (Z.to_nat 3) (maxinds peakres)
      /\ fancy_index (lags acfres) visited = Ok visited
      /\ StronglySorted Z.lt visited
      /\ let cad := cadence (interp acfres) in
         let later :=
           List.filter (fun l => bestlag peakres <? l) visited in
         let fity :=
           map (fun t => fmul t cad)
               (fzero :: of_int (bestlag peakres) :: map of_int later) in
         let fitx := map of_int (nparange 0 (Z.of_nat (length fity))) in
         StronglySorted Z.lt later
         /\ (isfinite cad = true ->
             exists sign, fity !! 0%nat = Some (S754_zero sign))
         /\ polyfit_line fitx fity 1 = Ok (coeffs, covar)
         /\ getitem coeffs 0 = Ok slope
         /\ getitem covar 0 = Ok row0
         /\ getitem row0 0 = Ok var0
         /\ dict_get "fitbestperiod" d = Some (RFloat slope)
         /\ dict_get "fitperiodrms" d = Some (RFloat (fsqrt var0)).
Proof.
  assert (Hrun : exists d w',
             demo_finder uneven8 3 (PInt 2) default_smoothfunckwargs
                         fresh_world = (Ok d, w'))
    by (eexists _, _; vm_compute; reflexivity).
  destruct Hrun as (d & w' & Hrun). exists d, w'.
  split; [exact Hrun |].
  exact (refined_period_from_line_fit
           (resample_uniform fone) median polyfit_line fsqrt
           (sample_times 8) uneven8 [] None 3 no_opts
           smooth_nothing default_smoothfunckwargs (PInt 2)
           fresh_world w' d Hrun).
Defined.

(** The samples of that fit: times 0, 3 and 5 at indices 0, 1 and 2, and
    the line through them has slope 2.5. *)
Example fit_samples_uneven8 :
  exists d w' peakres,
    demo_finder uneven8 3 (PInt 2) default_smoothfunckwargs fresh_world
    = (Ok d, w')
    /\ dict_get "acfpeaks" d = Some (RPeaks peakres)
    /\ maxinds peakres = [3; 5]
    /\ bestlag peakres = 3
    /\ fit_samples peakres fone
       = (map of_int [0; 1; 2], map of_int [0; 3; 5])
    /\ dict_get "fitbestperiod" d = Some (RFloat (float_of 5 (-1))).
Proof.
  eexists _, _, _. split; [vm_compute; reflexivity |].
  repeat split; vm_compute; reflexivity.
Qed.


(** The dict a call returns echoes the reference it was given, not a copy:
    after a second call with another window, the configuration the first
    result points to reads 3 where it read 2. *)
Example earlier_result_sees_later_window :
  exists d1 w1 r2 w2,
    demo_finder alternating7 10 (PInt 2) default_smoothfunckwargs
                fresh_world = (Ok d1, w1)
    /\ demo_finder alternating7 10 (PInt 3) default_smoothfunckwargs w1
       = (r2, w2)
    /\ (exists k, dict_get "kwargs" d1 = Some (RKwargs k)
                  /\ echo_smoothfunckwargs k = default_smoothfunckwargs)
    /\ deref w1 default_smoothfunckwargs !! "windowsize" = Some (PInt 2)
    /\ deref w2 default_smoothfunckwargs !! "windowsize" = Some (PInt 3).
Proof.
  eexists _, _, _, _. split; [vm_compute; reflexivity |].
  split; [vm_compute; reflexivity |].
  split; [eexists; split; reflexivity |]. split; reflexivity.
Qed.



(** * Further properties *)

(** ** The estimators of autocorr.py *)

Lemma lookup_map_seq_ge {A} (f : nat -> A) (len k : nat) :
  (len <= k)%nat -> map f (seq 0 len) !! k = None.
Proof.
  intros Hk. apply lookup_ge_None. rewrite length_map, length_seq. exact Hk.
Qed.

Lemma nparange_in_range (lo hi : Z) :
  Forall (fun i => lo <= i < hi) (nparange lo hi).
Proof.
  unfold nparange. apply Forall_forall. intros i Hi.
  apply list_elem_of_In, in_map_iff in Hi as (k & <- & Hk).
  apply in_seq in Hk. lia.
Qed.

Lemma fancy_index_shifted {A} (a : list A) (idx : list Z) (lag : Z) :
  Forall (fun i => 0 <= i + lag < Z.of_nat (length a)) idx ->
  exists out, fancy_index a (map (fun i => i + lag) idx) = Ok out.
Proof.
  intros H. apply fancy_index_in_range.
  apply Forall_forall. intros j Hj.
  apply list_elem_of_In, in_map_iff in Hj as (i & <- & Hi).
  rewrite Forall_forall in H. apply H. apply list_elem_of_In. exact Hi.
Qed.

Lemma lag_products_in_range (mags : list npfloat) (lo hi lag : Z)
    (magmed : npfloat) :
  0 <= lo -> 0 <= lag -> hi + lag <= Z.of_nat (length mags) ->
  exists products here,
    lag_products mags (nparange lo hi) lag magmed = Ok products
    /\ fancy_index mags (nparange lo hi) = Ok here.
Proof.
  intros Hlo Hlag Hhi. unfold lag_products.
  destruct (fancy_index_in_range mags (nparange lo hi)) as [here Hhere].
  { eapply Forall_impl; [apply nparange_in_range |].
    intros i Hi. simpl in Hi. lia. }
  destruct (fancy_index_shifted mags (nparange lo hi) lag) as [there Hthere].
  { eapply Forall_impl; [apply nparange_in_range |].
    intros i Hi. simpl in Hi. lia. }
  rewrite Hhere, Hthere. cbn [rbind]. eexists _, _. split; reflexivity.
Qed.

Lemma per_lag_stay_in_range_aux (mags : list npfloat) (lag : Z)
    (magmed magstd : npfloat) :
  0 <= lag ->
  (exists v, _autocorr_func1 mags lag (Z.of_nat (length mags)) magmed magstd
             = Ok v)
  /\ (exists v, _autocorr_func2 mags lag (Z.of_nat (length mags))
                                magmed magstd = Ok v).
Proof.
  intros Hlag. split.
  - unfold _autocorr_func1.
    destruct (lag_products_in_range mags 1 (Z.of_nat (length mags) - lag)
                lag magmed) as (products & here & -> & _); try lia.
    cbn [rbind]. eexists; reflexivity.
  - unfold _autocorr_func2.
    destruct (lag_products_in_range mags 0 (Z.of_nat (length mags) - lag)
                lag magmed) as (products & here & -> & ->); try lia.
    cbn [rbind]. eexists; reflexivity.
Qed.

(** X4.  For a lag that is not negative and [maglen] the number of
    samples, neither per-lag estimator indexes outside the series: both
    return a value, also for a lag beyond the end of the series, where
    the sum is empty. *)
Theorem per_lag_estimators_stay_in_range (mags : list npfloat) (lag : Z)
    (magmed magstd : npfloat) :
  0 <= lag ->
  (exists v, _autocorr_func1 mags lag (Z.of_nat (length mags)) magmed magstd
             = Ok v)
  /\ (exists v, _autocorr_func2 mags lag (Z.of_nat (length mags))
                                magmed magstd = Ok v)
  /\ (Z.of_nat (length mags) <= lag ->
      _autocorr_func2 mags lag (Z.of_nat (length mags)) magmed magstd
      = Ok nan).
Proof.
  intros Hlag.
  destruct (per_lag_stay_in_range_aux mags lag magmed magstd Hlag)
    as [H1 H2].
  split; [exact H1 |]. split; [exact H2 |].
  intros Hbeyond. unfold _autocorr_func2, lag_products.
  assert (nparange 0 (Z.of_nat (length mags) - lag) = []) as ->.
  { unfold nparange.
    replace (Z.to_nat (Z.of_nat (length mags) - lag - 0)) with 0%nat by lia.
    reflexivity. }
  reflexivity.
Qed.

Lemma per_lag_estimators_stay_in_range_witness :
  (exists v, _autocorr_func1 (map of_int [1; 2; 3; 4]) 7 (Z.of_nat 4)
                             fzero fone = Ok v)
  /\ (exists v, _autocorr_func2 (map of_int [1; 2; 3; 4]) 7 (Z.of_nat 4)
                                fzero fone = Ok v)
  /\ _autocorr_func2 (map of_int [1; 2; 3; 4]) 7 (Z.of_nat 4)
                     fzero fone = Ok nan.
Proof.
  destruct (per_lag_estimators_stay_in_range (map of_int [1; 2; 3; 4]) 7
              fzero fone) as (H1 & H2 & H3); [lia |].
  split; [exact H1 |]. split; [exact H2 |]. apply H3. simpl. lia.
Defined.

Lemma getitem_past_head {A} (x y : A) (rest : list A) (i : Z) :
  1 <= i -> getitem (x :: rest) i = getitem (y :: rest) i.
Proof.
  intros Hi. unfold getitem.
  destruct (i <? 0) eqn:E; [lia |]. rewrite E.
  destruct (Z.to_nat i) as [|k] eqn:Ek; [lia | reflexivity].
Qed.

Lemma mapM_ext_Forall {A B} (f g : A -> result B) (l : list A) :
  Forall (fun x => f x = g x) l -> mapM f l = mapM g l.
Proof.
  induction 1 as [|x l Hx _ IH]; simpl; [reflexivity |].
  rewrite Hx, IH. reflexivity.
Qed.

Lemma fancy_index_past_head {A} (x y : A) (rest : list A) (idx : list Z) :
  Forall (fun i => 1 <= i) idx ->
  fancy_index (x :: rest) idx = fancy_index (y :: rest) idx.
Proof.
  intros H. unfold fancy_index. apply mapM_ext_Forall.
  eapply Forall_impl; [exact H |]. intros i Hi.
  apply getitem_past_head. exact Hi.
Qed.

(** X5.  [_autocorr_func1] sums from index 1 on: for a lag that is not
    negative its value does not depend on the first sample of the
    series. *)
Theorem autocorr_func1_skips_first_sample (x y : npfloat)
    (rest : list npfloat) (lag maglen : Z) (magmed magstd : npfloat) :
  0 <= lag ->
  _autocorr_func1 (x :: rest) lag maglen magmed magstd
  = _autocorr_func1 (y :: rest) lag maglen magmed magstd.
Proof.
  intros Hlag. unfold _autocorr_func1, lag_products.
  rewrite (fancy_index_past_head x y rest (nparange 1 (maglen - lag))).
  2:{ eapply Forall_impl; [apply nparange_in_range |].
      intros i Hi. simpl in Hi. lia. }
  rewrite (fancy_index_past_head x y rest
             (map (fun i => i + lag) (nparange 1 (maglen - lag)))).
  2:{ apply Forall_forall. intros j Hj.
      apply list_elem_of_In, in_map_iff in Hj as (i & <- & Hi).
      pose proof (nparange_in_range 1 (maglen - lag)) as HF.
      rewrite Forall_forall in HF.
      apply list_elem_of_In, HF in Hi. lia. }
  reflexivity.
Qed.

Lemma autocorr_func1_skips_first_sample_witness :
  _autocorr_func1 (map of_int [100; 2; 3; 4]) 1 4 fzero fone
  = _autocorr_func1 (map of_int [1; 2; 3; 4]) 1 4 fzero fone.
Proof.
  apply (autocorr_func1_skips_first_sample (of_int 100) (of_int 1)
           (map of_int [2; 3; 4]) 1 4 fzero fone).
  lia.
Defined.

Lemma mapM_Ok_map {A B} (f : A -> result B) (g : A -> B) (l : list A) :
  Forall (fun x => f x = Ok (g x)) l -> mapM f l = Ok (map g l).
Proof.
  induction 1 as [|x l Hx _ IH]; simpl; [reflexivity |].
  rewrite Hx, IH. reflexivity.
Qed.

(** Indexing an array with all of its indices returns the array. *)
Lemma fancy_index_all {A} (a : list A) :
  fancy_index a (nparange 0 (Z.of_nat (length a))) = Ok a.
Proof.
  destruct a as [|d a']; [reflexivity |].
  set (a := d :: a').
  unfold fancy_index.
  rewrite (mapM_Ok_map _ (fun i => nth (Z.to_nat i) a d)).
  - f_equal. apply list_eq. intros k.
    unfold nparange. rewrite map_map, Z.sub_0_r, Nat2Z.id.
    destruct (Nat.lt_ge_cases k (length a)) as [Hk | Hk].
    + rewrite map_lookup_seq by exact Hk. cbn beta.
      replace (Z.to_nat (0 + Z.of_nat k)) with k by lia.
      destruct (lookup_lt_is_Some_2 a k Hk) as [x Hx].
      rewrite Hx. f_equal. exact (nth_lookup_Some a k d x Hx).
    + rewrite lookup_map_seq_ge by exact Hk.
      symmetry. apply lookup_ge_None. exact Hk.
  - eapply Forall_impl; [apply nparange_in_range |].
    intros i Hi. simpl in Hi.
    destruct (getitem_in_range a i Hi) as (x & -> & Hx).
    f_equal. symmetry. exact (nth_lookup_Some a _ d x Hx).
Qed.

(** X6.  At lag 0 [_autocorr_func2] divides the mean of the squared
    deviations from [magmed] by itself, so its value there is exactly 1.0
    whenever that mean, as computed, is a finite number other than 0, and
    nan whenever it is not (a zero, an infinity or nan). *)
Theorem autocorr_func2_lag0_is_one (mags : list npfloat)
    (magmed magstd : npfloat) :
  let dev := deviations mags magmed in
  let meansq := fdiv (dot dev dev) (of_int (Z.of_nat (length mags))) in
  _autocorr_func2 mags 0 (Z.of_nat (length mags)) magmed magstd
  = Ok (fdiv meansq meansq)
  /\ (finite_nonzero meansq = true -> fdiv meansq meansq = fone)
  /\ (finite_nonzero meansq = false -> fdiv meansq meansq = nan).
Proof.
  cbv zeta. split; [| split].
  - unfold _autocorr_func2, lag_products.
    rewrite Z.sub_0_r.
    assert (map (fun i => i + 0) (nparange 0 (Z.of_nat (length mags)))
            = nparange 0 (Z.of_nat (length mags))) as ->.
    { rewrite <- (map_id (nparange 0 (Z.of_nat (length mags)))) at 2.
      apply map_ext. intros i. lia. }
    rewrite fancy_index_all. cbn [rbind].
    fold (deviations mags magmed).
    fold (dot (deviations mags magmed) (deviations mags magmed)).
    rewrite length_nparange, Z.sub_0_r, Nat2Z.id. reflexivity.
  - apply fdiv_self.
  - destruct (fdiv _ _) as [[|]|[|]| |]; try discriminate; reflexivity.
Qed.

Lemma autocorr_func2_lag0_is_one_witness :
  _autocorr_func2 (map of_int [1; 2; 3; 4]) 0 (Z.of_nat 4)
                  (float_of 5 (-1)) fone
  = Ok fone
  /\ _autocorr_func2 [fzero; fzero] 0 (Z.of_nat 2) fzero fone = Ok nan.
Proof.
  split.
  - destruct (autocorr_func2_lag0_is_one (map of_int [1; 2; 3; 4])
                (float_of 5 (-1)) fone) as (Hv & Hone & _).
    rewrite Hone in Hv by (vm_compute; reflexivity). exact Hv.
  - destruct (autocorr_func2_lag0_is_one [fzero; fzero] fzero fone)
      as (Hv & _ & Hnan).
    rewrite Hnan in Hv by (vm_compute; reflexivity). exact Hv.
Defined.

(** ** [autocorr_magseries] with a per-lag estimator, and its failures *)

Lemma mapM_total {A B} (f : A -> result B) (l : list A) :
  Forall (fun x => exists y, f x = Ok y) l -> exists out, mapM f l = Ok out.
Proof.
  induction 1 as [|x l [y Hy] _ [out IH]]; simpl.
  - eexists; reflexivity.
  - rewrite Hy, IH. eexists; reflexivity.
Qed.

Section CorrelatorEdges.

Variable fill_magseries_gaps :
  list npfloat -> list npfloat -> list npfloat -> lcopts ->
  result (option interpolated).
Variable npmedian : list npfloat -> npfloat.
Variables (times mags errs : list npfloat) (opts : lcopts).

(** X7.  With [_autocorr_func1] or [_autocorr_func2] as the estimator,
    [autocorr_magseries] returns for every lag count, negative, larger
    than the series or none, as soon as the resampled series has a
    sample time, and its ACF has one value per lag. *)
Theorem autocorr_magseries_per_lag_total (ip : interpolated)
    (maxlags : option Z) (f : estimator_fn) :
  fill_magseries_gaps times mags errs opts = Ok (Some ip) ->
  itimes ip <> [] ->
  f = _autocorr_func1 \/ f = _autocorr_func2 ->
  exists r,
    autocorr_magseries fill_magseries_gaps npmedian times mags errs
                       maxlags (Func f) opts = Ok r
    /\ length (acf r) = length (lags r).
Proof.
  intros Hfill Htimes Hf. unfold autocorr_magseries.
  rewrite Hfill. cbn [rbind].
  match goal with
  | |- context [mapM ?g ?l] =>
      destruct (mapM_total g l) as [out Hout]
  end.
  { match goal with
    | |- Forall _ ?l =>
        assert (Hl : Forall (fun i => 0 <= i) l)
    end.
    { destruct (truthy_int maxlags);
        (eapply Forall_impl; [apply nparange_in_range |]);
        intros i Hi; simpl in Hi; lia. }
    eapply Forall_impl; [exact Hl |]. intros i Hi. simpl in Hi.
    destruct Hf as [-> | ->].
    - apply (proj1 (per_lag_stay_in_range_aux _ _ _ _ Hi)).
    - apply (proj2 (per_lag_stay_in_range_aux _ _ _ _ Hi)). }
  rewrite Hout. cbn [rbind].
  destruct (npmin_nonempty (itimes ip) Htimes) as [m ->]. cbn [rbind].
  eexists. split; [reflexivity |]. cbn [acf lags].
  exact (length_mapM _ _ _ Hout).
Qed.

(** X9.  A negative lag count leaves the default estimator without a
    first lag to read: [autocorr_magseries] ends in an IndexError, while
    the lag count 0 is taken as no lag count at all. *)
Theorem negative_maxlags_is_an_IndexError (ip : interpolated) (L : Z) :
  fill_magseries_gaps times mags errs opts = Ok (Some ip) ->
  L < 0 ->
  autocorr_magseries fill_magseries_gaps npmedian times mags errs
                     (Some L) Func3 opts = Raise IndexError
  /\ autocorr_magseries fill_magseries_gaps npmedian times mags errs
                        (Some 0) Func3 opts
     = autocorr_magseries fill_magseries_gaps npmedian times mags errs
                          None Func3 opts.
Proof.
  intros Hfill HL. split; [| reflexivity].
  unfold autocorr_magseries. rewrite Hfill. cbn [rbind].
  assert (truthy_int (Some L) = true) as ->.
  { simpl. destruct (L =? 0) eqn:E; [lia | reflexivity]. }
  cbn [default from_option id].
  assert (nparange 0 L = []) as ->.
  { unfold nparange. replace (Z.to_nat (L - 0)) with 0%nat by lia.
    reflexivity. }
  reflexivity.
Qed.

End CorrelatorEdges.

Lemma autocorr_magseries_per_lag_total_witness :
  exists r,
    autocorr_magseries (resample_uniform fone) median
      (sample_times 5) alternating5 [] (Some 8) (Func _autocorr_func2)
      no_opts = Ok r
    /\ length (acf r) = length (lags r).
Proof.
  apply (autocorr_magseries_per_lag_total
           (resample_uniform fone) median
           (sample_times 5) alternating5 [] no_opts
           {| itimes := sample_times 5; imags := alternating5;
              ierrs := []; cadence := fone |}
           (Some 8) _autocorr_func2).
  - reflexivity.
  - discriminate.
  - right. reflexivity.
Defined.

Lemma negative_maxlags_is_an_IndexError_witness :
  demo_correlator alternating5 (Some (-3)) = Raise IndexError
  /\ demo_correlator alternating5 (Some 0) = demo_correlator alternating5 None.
Proof.
  apply (negative_maxlags_is_an_IndexError
           (resample_uniform fone) median
           (sample_times 5) alternating5 [] no_opts
           {| itimes := sample_times 5; imags := alternating5;
              ierrs := []; cadence := fone |} (-3)).
  - reflexivity.
  - lia.
Defined.


(** X10.  In the dict of a successful call the three placeholder arrays
    have exactly [npeaks] entries: the relative heights, the lags and the
    running numbers 0, 1, .. of the maxima the loop visited (the first
    [npeaks] of them), and zeros from there on.  The arrays of the maxima
    and of the minima are as long as their index arrays. *)
Theorem peakheights_arrays (lags : list Z) (acf : list npfloat)
    (npeaks searchinterval : Z) (r : peakresult) :
  _get_acf_peakheights lags acf npeaks searchinterval = Ok r ->
  let visited := take (Z.to_nat npeaks) (maxinds r) in
  let rest := (Z.to_nat npeaks - length visited)%nat in
  exists hs ls,
    mapM (relpeakheight acf (mininds r)) visited = Ok hs
    /\ fancy_index lags visited = Ok ls
    /\ relpeakheights r = hs ++ replicate rest fzero
    /\ relpeaklags r = ls ++ replicate rest 0
    /\ peakindices r
       = map Z.of_nat (seq 0 (length visited)) ++ replicate rest 0
    /\ length (relpeakheights r) = Z.to_nat npeaks
    /\ length (relpeaklags r) = Z.to_nat npeaks
    /\ length (peakindices r) = Z.to_nat npeaks
    /\ length (maxacfs r) = length (maxinds r)
    /\ length (maxlags r) = length (maxinds r)
    /\ length (minacfs r) = length (mininds r)
    /\ length (minlags r) = length (mininds r).
Proof.
  intros H. cbv zeta.
  destruct (get_acf_peakheights_Ok_full _ _ _ _ _ H)
    as (items & Hn & _ & Hmaxa & Hmaxl & _ & Hmina & Hminl & Hitems
        & Hh & Hl & Hi & _).
  pose proof (length_mapM _ _ _ Hitems) as Hlen.
  assert (Hle : (length items <= Z.to_nat npeaks)%nat).
  { rewrite Hlen, length_take. lia. }
  exists (map fst items), (map snd items).
  split; [exact (mapM_peak_item_heights _ _ _ _ _ Hitems) |].
  split; [exact (mapM_peak_item_lags _ _ _ _ _ Hitems) |].
  rewrite Hh, Hl, Hi, <- Hlen.
  split; [reflexivity |]. split; [reflexivity |].
  split; [unfold filled; rewrite length_seq; reflexivity |].
  rewrite !length_filled by (rewrite ?length_seq; exact Hle).
  split; [reflexivity |]. split; [reflexivity |]. split; [reflexivity |].
  unfold fancy_index in *.
  rewrite (length_mapM _ _ _ Hmaxa), (length_mapM _ _ _ Hmaxl),
          (length_mapM _ _ _ Hmina), (length_mapM _ _ _ Hminl).
  repeat split.
Qed.

(** X11.  [_get_acf_peakheights] returns only for a peak count of at
    least 2 and a search interval of at least 1: with fewer than two
    places in the arrays the comparison of the first two relative heights
    has nothing to read. *)
Theorem peakheights_needs_two_places (lags : list Z) (acf : list npfloat)
    (npeaks searchinterval : Z) (r : peakresult) :
  _get_acf_peakheights lags acf npeaks searchinterval = Ok r ->
  2 <= npeaks /\ 1 <= searchinterval.
Proof.
  intros H.
  destruct (get_acf_peakheights_Ok_full _ _ _ _ _ H)
    as (items & Hn & Hmax & _ & _ & _ & _ & _ & Hitems & Hh & _ & _ & Hbest).
  split.
  - apply pick_best_Ok_length in Hbest. cbn [heights] in Hbest.
    rewrite Hh, length_filled in Hbest; [lia |].
    rewrite (length_mapM _ _ _ Hitems), length_take. lia.
  - exact (proj1 (argrelmax_in_range _ _ _ Hmax)).
Qed.

Lemma peakheights_arrays_witness :
  exists r,
    _get_acf_peakheights (nparange 0 9) three_peaks 5 1 = Ok r
    /\ let visited := take (Z.to_nat 5) (maxinds r) in
       let rest := (Z.to_nat 5 - length visited)%nat in
       exists hs ls,
         mapM (relpeakheight three_peaks (mininds r)) visited = Ok hs
         /\ fancy_index (nparange 0 9) visited = Ok ls
         /\ relpeakheights r = hs ++ replicate rest fzero
         /\ relpeaklags r = ls ++ replicate rest 0
         /\ peakindices r
            = map Z.of_nat (seq 0 (length visited)) ++ replicate rest 0
         /\ length (relpeakheights r) = Z.to_nat 5
         /\ length (relpeaklags r) = Z.to_nat 5
         /\ length (peakindices r) = Z.to_nat 5
         /\ length (maxacfs r) = length (maxinds r)
         /\ length (maxlags r) = length (maxinds r)
         /\ length (minacfs r) = length (mininds r)
         /\ length (minlags r) = length (mininds r).
Proof.
  assert (Hrun : exists r,
             _get_acf_peakheights (nparange 0 9) three_peaks 5 1 = Ok r)
    by (eexists; vm_compute; reflexivity).
  destruct Hrun as (r & Hrun). exists r. split; [exact Hrun |].
  exact (peakheights_arrays (nparange 0 9) three_peaks 5 1 r Hrun).
Defined.

(** The arrays of that call: three maxima visited, two places left at
    zero. *)
Example peakheights_arrays_three_peaks :
  exists r,
    _get_acf_peakheights (nparange 0 9) three_peaks 5 1 = Ok r
    /\ relpeakheights r
       = [float_of 7 (-1); float_of 5 (-1); float_of 17 (-1); fzero; fzero]
    /\ relpeaklags r = [2; 4; 6; 0; 0]
    /\ peakindices r = [0; 1; 2; 0; 0].
Proof.
  eexists. split; [vm_compute; reflexivity |].
  repeat split; vm_compute; reflexivity.
Qed.

Lemma peakheights_needs_two_places_witness :
  exists r,
    _get_acf_peakheights (nparange 0 9) three_peaks 5 1 = Ok r
    /\ 2 <= 5 /\ 1 <= 1.
Proof.
  assert (Hrun : exists r,
             _get_acf_peakheights (nparange 0 9) three_peaks 5 1 = Ok r)
    by (eexists; vm_compute; reflexivity).
  destruct Hrun as (r & Hrun). exists r. split; [exact Hrun |].
  exact (peakheights_needs_two_places (nparange 0 9) three_peaks 5 1 r Hrun).
Defined.

(** X12.  When one of the maxima the loop visits has no minimum on its
    left or none on its right, [_get_acf_peakheights] ends in an
    IndexError: the list of minima on that side has no last or first
    element. *)
Theorem unbracketed_maximum_is_an_IndexError (lags : list Z)
    (acf : list npfloat) (npeaks searchinterval : Z) (maxs mins : list Z) :
  argrelmax acf searchinterval = Ok maxs ->
  argrelmin acf searchinterval = Ok mins ->
  forallb (bracketed mins) (take (Z.to_nat npeaks) maxs) = false ->
  0 <= npeaks ->
  (length acf <= length lags)%nat ->
  _get_acf_peakheights lags acf npeaks searchinterval = Raise IndexError.
Proof.
  intros Hmax Hmin Hbr Hn Hlen.
  destruct (argrelmax_in_range _ _ _ Hmax) as [_ Hmaxs].
  destruct (argrelmin_in_range _ _ _ Hmin) as [_ Hmins].
  destruct (fancy_index_in_range acf _ Hmaxs) as [mxa Hmaxa].
  destruct (fancy_index_in_range lags _
              (in_range_weaken _ _ _ Hlen Hmaxs)) as [mxl Hmaxl].
  destruct (fancy_index_in_range acf mins Hmins) as [mna Hmina].
  destruct (fancy_index_in_range lags mins
              (in_range_weaken _ _ _ Hlen Hmins)) as [mnl Hminl].
  rewrite (get_acf_peakheights_spec lags acf npeaks searchinterval
             maxs mins mxa mna mxl mnl) by assumption.
  rewrite (mapM_Raise _ IndexError); [reflexivity | |].
  - intros x e. apply peak_item_Raise.
  - apply forallb_Exists_false in Hbr as Hex.
    eapply Exists_impl; [exact Hex |]. intros mxi Hmxi. simpl in Hmxi.
    unfold peak_item.
    rewrite relpeakheight_unbracketed by exact Hmxi. reflexivity.
Qed.

Lemma unbracketed_maximum_is_an_IndexError_witness :
  _get_acf_peakheights (nparange 0 9)
    (map of_int [5; 1; 4; 0; 3; 1; 9; 2; 0]) 10 1
  = Raise IndexError.
Proof.
  apply (unbracketed_maximum_is_an_IndexError (nparange 0 9)
           (map of_int [5; 1; 4; 0; 3; 1; 9; 2; 0]) 10 1
           [2; 4; 6] [1; 3; 5]).
  - reflexivity.
  - reflexivity.
  - reflexivity.
  - lia.
  - simpl. lia.
Defined.

(** X13.  The best peak index of a successful call is 0 or 1, and it is 1
    exactly when the first relative height is not greater than the second
    and the loop visited at least two maxima.  In the second-peak branch
    with fewer than two maxima visited, the best lag and height are read
    from place 1 of the arrays while the index stays 0. *)
Theorem bestpeakindex_is_0_or_1 (lags : list Z) (acf : list npfloat)
    (npeaks searchinterval : Z) (r : peakresult) :
  _get_acf_peakheights lags acf npeaks searchinterval = Ok r ->
  exists h0 h1 l0 l1,
    getitem (relpeakheights r) 0 = Ok h0
    /\ getitem (relpeakheights r) 1 = Ok h1
    /\ getitem (relpeaklags r) 0 = Ok l0
    /\ getitem (relpeaklags r) 1 = Ok l1
    /\ bestpeakheight r = (if fgt h0 h1 then h0 else h1)
    /\ bestlag r = (if fgt h0 h1 then l0 else l1)
    /\ bestpeakindex r
       = (if fgt h0 h1 then 0
          else if (2 <=? length (take (Z.to_nat npeaks) (maxinds r)))%nat
               then 1 else 0).
Proof.
  intros H.
  destruct (get_acf_peakheights_Ok_full _ _ _ _ _ H)
    as (items & Hn & _ & _ & _ & _ & _ & _ & Hitems & Hh & Hl & Hi & Hbest).
  pose proof (length_mapM _ _ _ Hitems) as Hlen.
  assert (Hle : (length items <= Z.to_nat npeaks)%nat).
  { rewrite Hlen, length_take. lia. }
  pose proof (pick_best_Ok_length _ _ Hbest) as H2. cbn [heights] in H2.
  rewrite Hh, length_filled in H2 by exact Hle.
  destruct (Z.to_nat npeaks) as [|[|n]] eqn:En; [lia | lia |].
  rewrite <- Hlen.
  destruct (filled_front fst fzero n items Hle) as [th Hfh].
  destruct (filled_front snd 0 n items Hle) as [tl Hfl].
  destruct (filled_front Z.of_nat 0 n (seq 0 (length items))) as [ti Hfi].
  { rewrite length_seq. exact Hle. }
  rewrite Hh, Hl, Hi, Hfh, Hfl, Hfi in Hbest. rewrite Hh, Hl, Hfh, Hfl.
  destruct items as [|[ha la] [|[hb lb] rest]]; cbn [length seq] in Hbest;
    apply pick_best_cases in Hbest as (Hbh & Hbl & Hbi);
    rewrite Hbh, Hbl, Hbi; cbn [fst snd length];
    eexists _, _, _, _;
    (split; [reflexivity |]); (split; [reflexivity |]);
    (split; [reflexivity |]); (split; [reflexivity |]);
    (split; [reflexivity |]); (split; [reflexivity |]);
    destruct (fgt _ _); reflexivity.
Qed.

Lemma bestpeakindex_is_0_or_1_witness :
  exists r,
    _get_acf_peakheights (nparange 0 5)
      (map of_int [5; 1; 0; 1; 5]) 4 1 = Ok r
    /\ exists h0 h1 l0 l1,
      getitem (relpeakheights r) 0 = Ok h0
      /\ getitem (relpeakheights r) 1 = Ok h1
      /\ getitem (relpeaklags r) 0 = Ok l0
      /\ getitem (relpeaklags r) 1 = Ok l1
      /\ bestpeakheight r = (if fgt h0 h1 then h0 else h1)
      /\ bestlag r = (if fgt h0 h1 then l0 else l1)
      /\ bestpeakindex r
         = (if fgt h0 h1 then 0
            else if (2 <=? length (take (Z.to_nat 4) (maxinds r)))%nat
                 then 1 else 0).
Proof.
  assert (Hrun : exists r,
             _get_acf_peakheights (nparange 0 5)
               (map of_int [5; 1; 0; 1; 5]) 4 1 = Ok r)
    by (eexists; vm_compute; reflexivity).
  destruct Hrun as (r & Hrun). exists r. split; [exact Hrun |].
  exact (bestpeakindex_is_0_or_1 (nparange 0 5)
           (map of_int [5; 1; 0; 1; 5]) 4 1 r Hrun).
Defined.

(** X14.  Whenever [_get_acf_peakheights] returns and the search has
    found exactly one maximum, that maximum is the best peak exactly when
    its relative height is greater than 0.0; otherwise the call returns
    the placeholder: best lag 0 and best peak height 0.0.  The best peak
    index is 0 either way. *)
Theorem single_maximum (lags : list Z) (acf : list npfloat)
    (npeaks searchinterval : Z) (r : peakresult) (m0 : Z) :
  _get_acf_peakheights lags acf npeaks searchinterval = Ok r ->
  maxinds r = [m0] ->
  exists h0 l0,
    relpeakheight acf (mininds r) m0 = Ok h0
    /\ getitem lags m0 = Ok l0
    /\ (bestlag r, bestpeakheight r, bestpeakindex r)
       = (if fgt h0 fzero then (l0, h0, 0) else (0, fzero, 0)).
Proof.
  intros H Hmaxs.
  destruct (get_acf_peakheights_Ok_full _ _ _ _ _ H)
    as (items & Hn & _ & _ & _ & _ & _ & _ & Hitems & Hh & Hl & Hi & Hbest).
  pose proof (length_mapM _ _ _ Hitems) as Hlen.
  assert (Hle : (length items <= Z.to_nat npeaks)%nat).
  { rewrite Hlen, length_take. lia. }
  pose proof (pick_best_Ok_length _ _ Hbest) as H2. cbn [heights] in H2.
  rewrite Hh, length_filled in H2 by exact Hle.
  destruct (Z.to_nat npeaks) as [|[|k]] eqn:En; [lia | lia |].
  rewrite Hmaxs in Hitems. cbn [take firstn mapM] in Hitems.
  destruct (peak_item lags acf (mininds r) m0) as [[h0 l0]|] eqn:E0;
    [| discriminate].
  cbn [rbind] in Hitems. inversion Hitems; subst items; clear Hitems.
  apply peak_item_Ok in E0 as [Hh0 Hl0].
  rewrite Hh, Hl, Hi in Hbest. unfold filled in Hbest.
  cbn [map fst snd length seq app Nat.sub replicate] in Hbest.
  apply pick_best_cases in Hbest as (Hbh & Hbl & Hbi).
  exists h0, l0. split; [exact Hh0 |]. split; [exact Hl0 |].
  rewrite Hbh, Hbl, Hbi. destruct (fgt h0 fzero); reflexivity.
Qed.

Lemma single_maximum_witness :
  exists r h0 l0,
    _get_acf_peakheights (nparange 0 5)
      (map of_int [5; -4; 3; -2; 1]) 10 1 = Ok r
    /\ maxinds r = [2]
    /\ relpeakheight (map of_int [5; -4; 3; -2; 1]) (mininds r) 2 = Ok h0
    /\ getitem (nparange 0 5) 2 = Ok l0
    /\ (bestlag r, bestpeakheight r, bestpeakindex r)
       = (if fgt h0 fzero then (l0, h0, 0) else (0, fzero, 0)).
Proof.
  assert (Hrun : exists r,
             _get_acf_peakheights (nparange 0 5)
               (map of_int [5; -4; 3; -2; 1]) 10 1 = Ok r
             /\ maxinds r = [2])
    by (eexists; split; [vm_compute; reflexivity | reflexivity]).
  destruct Hrun as (r & Hrun & Hmaxs).
  destruct (single_maximum (nparange 0 5) (map of_int [5; -4; 3; -2; 1])
              10 1 r 2 Hrun Hmaxs) as (h0 & l0 & Hall).
  exists r, h0, l0. split; [exact Hrun |]. split; [exact Hmaxs |].
  exact Hall.
Defined.

(** X15.  The lags are indexed with the maxima of the ACF, so a lag array
    that ends before one of the maxima makes [_get_acf_peakheights] end in
    an IndexError, whatever the peak count is. *)
Theorem maximum_beyond_the_lags_is_an_IndexError (lags : list Z)
    (acf : list npfloat) (npeaks searchinterval : Z) (maxs : list Z) :
  argrelmax acf searchinterval = Ok maxs ->
  Exists (fun i => Z.of_nat (length lags) <= i) maxs ->
  _get_acf_peakheights lags acf npeaks searchinterval = Raise IndexError.
Proof.
  intros Hmax Hex.
  destruct (argrelmax_in_range _ _ _ Hmax) as [_ Hmaxs].
  destruct (fancy_index_in_range acf _ Hmaxs) as [mxa Hmaxa].
  unfold _get_acf_peakheights. rewrite Hmax. cbn [rbind].
  rewrite Hmaxa. cbn [rbind].
  rewrite (fancy_index_beyond lags maxs (in_range_nonneg _ _ Hmaxs) Hex).
  reflexivity.
Qed.

Lemma maximum_beyond_the_lags_is_an_IndexError_witness :
  _get_acf_peakheights (nparange 0 3) three_peaks 10 1 = Raise IndexError.
Proof.
  apply (maximum_beyond_the_lags_is_an_IndexError (nparange 0 3)
           three_peaks 10 1 [2; 4; 6]).
  - reflexivity.
  - apply Exists_cons_tl, Exists_cons_hd. simpl. lia.
Defined.

(** ** The period finder: what a call can return, log and report *)

Lemma fancy_index_elements {A} (a : list A) (idx : list Z) (out : list A) :
  fancy_index a idx = Ok out -> Forall (fun x => x ∈ a) out.
Proof.
  unfold fancy_index. revert out.
  induction idx as [|i idx IH]; intros out; simpl.
  - intros H; inversion H. constructor.
  - destruct (getitem a i) as [x|] eqn:Ex; [| discriminate]. cbn [rbind].
    destruct (mapM (getitem a) idx) as [rest|]; [| discriminate].
    cbn [rbind]. intros H; inversion H. constructor; [| apply IH; reflexivity].
    unfold getitem in Ex.
    destruct (_ <? 0); [discriminate |].
    destruct (a !! _) eqn:El; inversion Ex; subst.
    eapply list_elem_of_lookup_2. exact El.
Qed.

(** The lags the default estimator is run with start at 0 and are not
    empty. *)
Lemma autocorr_magseries_default_lags fill_magseries_gaps npmedian
    (times mags errs : list npfloat) (maxlags : option Z) (opts : lcopts)
    (r : acfresult) :
  autocorr_magseries fill_magseries_gaps npmedian times mags errs
                     maxlags Func3 opts = Ok r ->
  exists N, 1 <= N /\ lags r = nparange 0 N.
Proof.
  unfold autocorr_magseries.
  destruct (fill_magseries_gaps times mags errs opts) as [[ip|]|];
    try discriminate.
  cbn [rbind].
  match goal with
  | |- context [getitem ?l 0] =>
      set (lagvals := l); destruct (getitem lagvals 0) as [l0|] eqn:E0
  end; [| discriminate].
  cbn [rbind].
  destruct (_autocorr_func3 _ _ _ _ _) as [autocorr|]; [| discriminate].
  cbn [rbind]. destruct (npmin (itimes ip)); [| discriminate].
  cbn [rbind]. intros H; inversion H. cbn [lags].
  apply getitem_Ok_length in E0; [| lia].
  subst lagvals. destruct (truthy_int maxlags);
    rewrite length_nparange in E0; eexists; (split; [| reflexivity]); lia.
Qed.

(** The best lag of a peak extraction on lags [0 .. N-1] is one of those
    lags. *)
Lemma bestlag_is_a_lag (N : Z) (acf : list npfloat)
    (npeaks searchinterval : Z) (r : peakresult) :
  1 <= N ->
  _get_acf_peakheights (nparange 0 N) acf npeaks searchinterval = Ok r ->
  0 <= bestlag r < N.
Proof.
  intros HN H.
  destruct (get_acf_peakheights_Ok _ _ _ _ _ H)
    as (items & _ & _ & _ & Hitems & _ & Hrl & Hbest).
  apply mapM_peak_item_lags, fancy_index_elements in Hitems.
  apply pick_best_lag in Hbest. cbn [peaklags] in Hbest.
  assert (Hin : bestlag r ∈ relpeaklags r).
  { destruct Hbest as [Hb | Hb];
      apply getitem_Ok_range in Hb; try lia;
      eapply list_elem_of_lookup_2; exact Hb. }
  rewrite Hrl in Hin. unfold filled in Hin.
  apply elem_of_app in Hin as [Hin | Hin].
  - rewrite Forall_forall in Hitems. apply Hitems in Hin.
    pose proof (nparange_in_range 0 N) as HF. rewrite Forall_forall in HF.
    exact (HF _ Hin).
  - apply elem_of_replicate in Hin as [-> _]. lia.
Qed.

Section PeriodFinderReports.

Variable fill_magseries_gaps :
  list npfloat -> list npfloat -> list npfloat -> lcopts ->
  result (option interpolated).
Variable npmedian : list npfloat -> npfloat.
Variable polyfit :
  list npfloat -> list npfloat -> Z ->
  result (list npfloat * list (list npfloat)).
Variable npsqrt : npfloat -> npfloat.
Variables (times mags errs : list npfloat) (maxlags : option Z).
Variables (maxacfpeaks : Z) (opts : lcopts).
Variables (smoothfunc : smoother) (kw : loc).

(** X17.  A call returns a dict only when the search interval
    [int(smoothacf/2)] is at least 1, so never for [smoothacf = None].
    When smoothing is enabled ([smoothacf] is an int), the sequence the
    dict reports as ['acf'] and ['lspvals'] is what the smoothing
    function returned, called with that window, and the window is left
    behind in the keyword dict.  When smoothing is not enabled but
    [smoothacf] can be halved (it is a float), the dict reports the
    ACF of the Correlator as it is, unsmoothed, and the store is as it
    was. *)
Theorem macf_reports_the_searched_acf (smoothacf : pyval) (w w' : world)
    (d : pydict) :
  macf_period_find fill_magseries_gaps npmedian polyfit npsqrt
    times mags errs maxlags maxacfpeaks opts smoothacf smoothfunc kw w
  = (Ok d, w') ->
  exists acfres si,
    dict_get "acfresults" d = Some (RAcf acfres)
    /\ half_window smoothacf = Ok si /\ 1 <= si
    /\ smoothacf <> PNone
    /\ (smoothing_enabled smoothacf = true ->
        exists xacf,
          smoothfunc (acf acfres)
                     (<["windowsize" := smoothacf]> (deref w kw))
          = Ok xacf
          /\ dict_get "acf" d = Some (RFloats xacf)
          /\ dict_get "lspvals" d = Some (RFloats xacf)
          /\ deref w' kw !! "windowsize" = Some smoothacf)
    /\ (smoothing_enabled smoothacf = false ->
        dict_get "acf" d = Some (RFloats (acf acfres))
        /\ dict_get "lspvals" d = Some (RFloats (acf acfres))
        /\ store w' = store w).
Proof.
  intros H.
  destruct (macf_period_find_Ok _ _ _ _ _ _ _ _ _ _ _ _ _ _ _ _ H)
    as (acfres & xacf & si & peakres & lf
        & _ & Hs & Hw & Hsi & _ & _ & -> & ->).
  exists acfres, si.
  split; [reflexivity |]. split; [exact Hw |]. split; [exact Hsi |].
  split; [intros ->; discriminate Hw |].
  unfold after_smoothing. split.
  - intros Hon. rewrite Hon in Hs |- *. exists xacf.
    split; [exact Hs |]. split; [reflexivity |]. split; [reflexivity |].
    unfold with_log, deref. cbn [store with_windowsize].
    rewrite lookup_insert_eq. cbn [default from_option id].
    apply lookup_insert_eq.
  - intros Hoff. rewrite Hoff in Hs |- *. inversion Hs; subst xacf.
    repeat split.
Qed.

(** X18.  A call logs at most one line.  The warning of a failed fit is
    logged only by a call that raises, the alias warning only by a call
    that returns, for a fitted period below the naive one. *)
Theorem macf_logs_at_most_one_line (smoothacf : pyval) (w w' : world)
    (r : result pydict) :
  macf_period_find fill_magseries_gaps npmedian polyfit npsqrt
    times mags errs maxlags maxacfpeaks opts smoothacf smoothfunc kw w
  = (r, w') ->
  logged w' = logged w
  \/ (logged w' = logged w ++ [FitFailedWarning] /\ exists e, r = Raise e)
  \/ (exists fitted naive d,
        logged w' = logged w ++ [AliasWarning fitted naive]
        /\ r = Ok d /\ flt fitted naive = true).
Proof.
  rewrite macf_period_find_stages. cbv zeta.
  assert (Hlog : logged (after_smoothing w kw smoothacf) = logged w).
  { unfold after_smoothing.
    destruct (smoothing_enabled smoothacf); reflexivity. }
  destruct (autocorr_magseries _ _ _ _ _ _ _ _) as [acfres|e].
  2:{ intros H; inversion H. left; reflexivity. }
  destruct (if smoothing_enabled smoothacf then _ else _) as [xacf|e];
    [| intros H; inversion H; left; exact Hlog].
  destruct (half_window smoothacf) as [si|e];
    [| intros H; inversion H; left; exact Hlog].
  destruct (_get_acf_peakheights _ _ _ _) as [peakres|e];
    [| intros H; inversion H; left; exact Hlog].
  destruct (fit_line _ _ _ _) as [lf|e].
  - unfold alias_lines.
    destruct (flt _ _) eqn:Ef; intros H; inversion H;
      cbn [logged with_log]; rewrite Hlog.
    + right. right. eexists _, _, _. repeat split. exact Ef.
    + left. apply app_nil_r.
  - intros H; inversion H. right. left. cbn [logged with_log].
    rewrite Hlog. split; [reflexivity | eexists; reflexivity].
Qed.

(** X20.  The best lag of a returned dict is one of the lags the ACF was
    computed for, 0 included, so the naive best period is one of the
    entries of ['periods']. *)
Theorem naive_period_is_a_reported_period (smoothacf : pyval)
    (w w' : world) (d : pydict) :
  macf_period_find fill_magseries_gaps npmedian polyfit npsqrt
    times mags errs maxlags maxacfpeaks opts smoothacf smoothfunc kw w
  = (Ok d, w') ->
  exists acfres peakres naive periods,
    dict_get "acfresults" d = Some (RAcf acfres)
    /\ dict_get "acfpeaks" d = Some (RPeaks peakres)
    /\ dict_get "naivebestperiod" d = Some (RFloat naive)
    /\ dict_get "periods" d = Some (RFloats periods)
    /\ 0 <= bestlag peakres
    /\ bestlag peakres ∈ lags acfres
    /\ periods !! Z.to_nat (bestlag peakres) = Some naive.
Proof.
  intros H.
  destruct (macf_period_find_Ok _ _ _ _ _ _ _ _ _ _ _ _ _ _ _ _ H)
    as (acfres & xacf & si & peakres & lf
        & Hc & _ & _ & _ & Hp & _ & -> & _).
  destruct (autocorr_magseries_default_lags _ _ _ _ _ _ _ _ Hc)
    as (N & HN & Hlags).
  rewrite Hlags in Hp.
  pose proof (bestlag_is_a_lag N _ _ _ _ HN Hp) as Hbl.
  assert (Hlook : lags acfres !! Z.to_nat (bestlag peakres)
                  = Some (bestlag peakres)).
  { rewrite Hlags, nparange_lookup by lia. f_equal. lia. }
  eexists acfres, peakres, _, _.
  split; [reflexivity |]. split; [reflexivity |].
  split; [reflexivity |]. split; [reflexivity |].
  split; [lia |].
  split; [eapply list_elem_of_lookup_2; exact Hlook |].
  exact (map_lookup _ _ _ _ Hlook).
Qed.

End PeriodFinderReports.

(** A float window: with [smoothacf = 2.0] the smoothing function is not
    called, the dict reports the Correlator's ACF and the keyword dict
    stays empty; with [smoothacf = 2] the window is left behind in it. *)
Lemma macf_reports_the_searched_acf_witness :
  (exists d w' acfres,
     demo_finder alternating7 10 (PFloat ftwo) default_smoothfunckwargs
                 fresh_world = (Ok d, w')
     /\ dict_get "acfresults" d = Some (RAcf acfres)
     /\ half_window (PFloat ftwo) = Ok 1
     /\ dict_get "acf" d = Some (RFloats (acf acfres))
     /\ dict_get "lspvals" d = Some (RFloats (acf acfres))
     /\ store w' = store fresh_world)
  /\ (exists d w' acfres xacf,
        demo_finder alternating7 10 (PInt 2) default_smoothfunckwargs
                    fresh_world = (Ok d, w')
        /\ dict_get "acfresults" d = Some (RAcf acfres)
        /\ half_window (PInt 2) = Ok 1
        /\ smooth_nothing (acf acfres)
             (<["windowsize" := PInt 2]>
                (deref fresh_world default_smoothfunckwargs))
           = Ok xacf
        /\ dict_get "acf" d = Some (RFloats xacf)
        /\ dict_get "lspvals" d = Some (RFloats xacf)
        /\ deref w' default_smoothfunckwargs !! "windowsize"
           = Some (PInt 2)).
Proof.
  split.
  - assert (Hrun : exists d w',
               demo_finder alternating7 10 (PFloat ftwo)
                           default_smoothfunckwargs fresh_world = (Ok d, w'))
      by (eexists _, _; vm_compute; reflexivity).
    destruct Hrun as (d & w' & Hrun). exists d, w'.
    destruct (macf_reports_the_searched_acf
                (resample_uniform fone) median polyfit_line fsqrt
                (sample_times 7) alternating7 [] None 10 no_opts
                smooth_nothing default_smoothfunckwargs (PFloat ftwo)
                fresh_world w' d Hrun)
      as (acfres & si & Hacf & Hw & _ & _ & _ & Hoff).
    exists acfres. destruct (Hoff eq_refl) as (H1 & H2 & H3).
    split; [exact Hrun |]. split; [exact Hacf |].
    split; [vm_compute; reflexivity |].
    repeat split; assumption.
  - assert (Hrun : exists d w',
               demo_finder alternating7 10 (PInt 2)
                           default_smoothfunckwargs fresh_world = (Ok d, w'))
      by (eexists _, _; vm_compute; reflexivity).
    destruct Hrun as (d & w' & Hrun). exists d, w'.
    destruct (macf_reports_the_searched_acf
                (resample_uniform fone) median polyfit_line fsqrt
                (sample_times 7) alternating7 [] None 10 no_opts
                smooth_nothing default_smoothfunckwargs (PInt 2)
                fresh_world w' d Hrun)
      as (acfres & si & Hacf & Hw & _ & _ & Hon & _).
    destruct (Hon eq_refl) as (xacf & H1 & H2 & H3 & H4).
    exists acfres, xacf.
    split; [exact Hrun |]. split; [exact Hacf |].
    split; [vm_compute; reflexivity |].
    repeat split; assumption.
Defined.

Lemma macf_logs_at_most_one_line_witness :
  exists r w',
    demo_finder uneven8 3 (PInt 2) default_smoothfunckwargs fresh_world
    = (r, w')
    /\ (logged w' = logged fresh_world
        \/ (logged w' = logged fresh_world ++ [FitFailedWarning]
            /\ exists e, r = Raise e)
        \/ (exists fitted naive d,
              logged w' = logged fresh_world ++ [AliasWarning fitted naive]
              /\ r = Ok d /\ flt fitted naive = true)).
Proof.
  assert (Hrun : exists r w',
             demo_finder uneven8 3 (PInt 2) default_smoothfunckwargs
                         fresh_world = (r, w'))
    by (eexists _, _; vm_compute; reflexivity).
  destruct Hrun as (r & w' & Hrun). exists r, w'.
  split; [exact Hrun |].
  exact (macf_logs_at_most_one_line
           (resample_uniform fone) median
           polyfit_line fsqrt
           (sample_times 8) uneven8 [] None 3 no_opts
           smooth_nothing default_smoothfunckwargs (PInt 2)
           fresh_world w' r Hrun).
Defined.

Lemma naive_period_is_a_reported_period_witness :
  exists d w' acfres peakres naive periods,
    demo_finder uneven8 3 (PInt 2) default_smoothfunckwargs fresh_world
    = (Ok d, w')
    /\ dict_get "acfresults" d = Some (RAcf acfres)
    /\ dict_get "acfpeaks" d = Some (RPeaks peakres)
    /\ dict_get "naivebestperiod" d = Some (RFloat naive)
    /\ dict_get "periods" d = Some (RFloats periods)
    /\ 0 <= bestlag peakres
    /\ bestlag peakres ∈ lags acfres
    /\ periods !! Z.to_nat (bestlag peakres) = Some naive.
Proof.
  assert (Hrun : exists d w',
             demo_finder uneven8 3 (PInt 2) default_smoothfunckwargs
                         fresh_world = (Ok d, w'))
    by (eexists _, _; vm_compute; reflexivity).
  destruct Hrun as (d & w' & Hrun). exists d, w'.
  destruct (naive_period_is_a_reported_period
              (resample_uniform fone) median
              polyfit_line fsqrt
              (sample_times 8) uneven8 [] None 3 no_opts
              smooth_nothing default_smoothfunckwargs (PInt 2)
              fresh_world w' d Hrun)
    as (acfres & peakres & naive & periods & Hall).
  exists acfres, peakres, naive, periods. split; [exact Hrun | exact Hall].
Defined.
